(** * localorm: the query builder over an IndexedDB object store

    A shallow embedding of [orm/types.ts], [orm/model.ts], [orm/entity.ts],
    [orm/relation.ts] and [orm/idb.ts], followed by the properties of the
    predicate evaluator ([Entity.matches]), of the executor ([Entity.get],
    [Entity.find]), of the relation descriptors and of the database manager.

    Conventions of the embedding.
    - A JavaScript object is the list of its own enumerable properties, in
      the order [for ... in] visits them; keys are distinct.  Property names
      are taken not to be members of [Object.prototype], so reading a
      property the object does not own gives [undefined].
    - A number is an integer, [NaN] or an infinity; [-0] is identified with
      [0] (they are equal for [===], both falsy, and both slice as 0).
    - A string is the list of its code units, taken below 256.
    - A method that mutates [this] and returns it is a function from the
      receiver to the receiver after the call.
    - An [async] function is a value of [promise]: what its promise settles
      to, or that it never settles. *)

From Stdlib Require Import List String Ascii ZArith Bool Arith Lia DecimalString.
Import ListNotations.

Local Open Scope string_scope.
Local Open Scope list_scope.

Set Warnings "-register-all".

(** ** Values *)

Inductive number :=
| NaN
| Num (z : Z)
| PosInfinity
| NegInfinity.

Inductive value :=
| VUndefined
| VNull
| VBool (b : bool)
| VNum (n : number)
| VStr (s : string)
| VArr (items : list value)
| VObj (props : list (string * value)).

Definition object := list (string * value).

Definition typeof (v : value) : string :=
  match v with
  | VUndefined => "undefined"
  | VNull => "object"
  | VBool _ => "boolean"
  | VNum _ => "number"
  | VStr _ => "string"
  | VArr _ => "object"
  | VObj _ => "object"
  end.

Definition isArray (v : value) : bool :=
  match v with VArr _ => true | _ => false end.

Definition is_null (v : value) : bool :=
  match v with VNull => true | _ => false end.

(** The own properties [for ... in] walks through. *)
Definition own_props (v : value) : object :=
  match v with VObj props => props | _ => [] end.

(** [o[k]] *)
Fixpoint get_prop (o : object) (k : string) : value :=
  match o with
  | [] => VUndefined
  | (k', v) :: rest => if String.eqb k' k then v else get_prop rest k
  end.

(** [o[k] = v] for a name that is not an array index: an existing property
    keeps its place, a new one goes last. *)
Fixpoint set_prop (o : object) (k : string) (v : value) : object :=
  match o with
  | [] => [(k, v)]
  | (k', v') :: rest =>
      if String.eqb k' k then (k, v) :: rest else (k', v') :: set_prop rest k v
  end.

Definition number_eqb (x y : number) : bool :=
  match x, y with
  | Num a, Num b => Z.eqb a b
  | PosInfinity, PosInfinity => true
  | NegInfinity, NegInfinity => true
  | _, _ => false
  end.

(** [a === b].  Arrays and objects are equal only to themselves; the two
    sides compared by [matches] are a value read from a record the store has
    just produced and a value of the caller's query, which are never the
    same object, so the comparison of two of them is [false]. *)
Definition strict_equals (a b : value) : bool :=
  match a, b with
  | VUndefined, VUndefined => true
  | VNull, VNull => true
  | VBool x, VBool y => Bool.eqb x y
  | VNum x, VNum y => number_eqb x y
  | VStr x, VStr y => String.eqb x y
  | _, _ => false
  end.

(** SameValueZero, the comparison of [Array.prototype.includes]: as [===],
    but [NaN] is equal to itself. *)
Definition same_value_zero (a b : value) : bool :=
  match a, b with
  | VNum NaN, VNum NaN => true
  | _, _ => strict_equals a b
  end.

(** ** Strings *)

Definition startsWith (s search : string) : bool := String.prefix search s.

Definition endsWith (s search : string) : bool :=
  let ls := String.length s in
  let lt := String.length search in
  (lt <=? ls)%nat && String.eqb (String.substring (ls - lt) lt s) search.

Fixpoint string_includes (s search : string) : bool :=
  String.prefix search s
  || match s with
     | EmptyString => false
     | String _ s' => string_includes s' search
     end.

(** ** Completions and promises *)

Inductive error :=
| TypeError (msg : string)
| Error (msg : string)
| DOMException (name : string).

(** What a synchronous call does. *)
Inductive completion (A : Type) :=
| Returns (a : A)
| Throws (e : error).
Arguments Returns {A} a.
Arguments Throws {A} e.

Definition bind {A B} (c : completion A) (k : A -> completion B) : completion B :=
  match c with
  | Returns a => k a
  | Throws e => Throws e
  end.

(** What becomes of the promise of an [async] call.  [Unsettled e]: neither
    [resolve] nor [reject] is ever called, because the error [e] ended a
    request handler whose own promise nobody observes. *)
Inductive promise (A : Type) :=
| Resolved (a : A)
| Rejected (e : error)
| Unsettled (e : error).
Arguments Resolved {A} a.
Arguments Rejected {A} e.
Arguments Unsettled {A} e.

(** [const x = await p; k x] inside an [async] function. *)
Definition await {A B} (p : promise A) (k : A -> promise B) : promise B :=
  match p with
  | Resolved a => k a
  | Rejected e => Rejected e
  | Unsettled e => Unsettled e
  end.

(** A synchronous step of an [async] function. *)
Definition lift {A} (c : completion A) : promise A :=
  match c with
  | Returns a => Resolved a
  | Throws e => Rejected e
  end.

Notation "x <- c ;; k" := (bind c (fun x => k))
  (at level 61, c at next level, right associativity).
Notation "x <~ p ;; k" := (await p (fun x => k))
  (at level 61, p at next level, right associativity).

Fixpoint filterM {A} (p : A -> completion bool) (l : list A) : completion (list A) :=
  match l with
  | [] => Returns []
  | x :: rest =>
      keep <- p x ;;
      kept <- filterM p rest ;;
      Returns (if keep then x :: kept else kept)
  end.

Fixpoint forEach_await {A B} (f : A -> promise B) (l : list A) : promise (list B) :=
  match l with
  | [] => Resolved []
  | x :: rest =>
      y <~ f x ;;
      ys <~ forEach_await f rest ;;
      Resolved (y :: ys)
  end.

(** ** The coercions of the language

    The relational operators and [String.prototype.includes] go through the
    language's conversions (ToPrimitive, ToNumber, ToString).  On plain data
    they are pure functions of their operands; the evaluator is written over
    any such pair. *)

Class Coercions := {
  (** the abstract relational comparison [x < y]; [None] is its
      [undefined] result (an operand converts to [NaN]) *)
  IsLessThan : value -> value -> option bool;
  ToString : value -> string
}.

Section Evaluator.
Context `{Coercions}.

(** [a < b], [a > b], [a <= b], [a >= b] *)
Definition js_lt (a b : value) : bool :=
  match IsLessThan a b with Some r => r | None => false end.
Definition js_gt (a b : value) : bool :=
  match IsLessThan b a with Some r => r | None => false end.
Definition js_le (a b : value) : bool :=
  match IsLessThan b a with Some r => negb r | None => false end.
Definition js_ge (a b : value) : bool :=
  match IsLessThan a b with Some r => negb r | None => false end.

(** [(operand as any[]).includes(itemValue)]: the array method on an array,
    the string method on a string, and a [TypeError] on anything else, which
    has no callable [includes]. *)
Definition includes (operand itemValue : value) : completion bool :=
  match operand with
  | VArr items => Returns (existsb (same_value_zero itemValue) items)
  | VStr s => Returns (string_includes s (ToString itemValue))
  | VUndefined | VNull =>
      Throws (TypeError "Cannot read properties of undefined (reading 'includes')")
  | _ => Throws (TypeError "operand.includes is not a function")
  end.

(** The string methods, called under the [typeof] guards of [matches]. *)
Definition call_startsWith (itemValue operand : value) : bool :=
  match itemValue, operand with
  | VStr s, VStr search => startsWith s search
  | _, _ => false
  end.
Definition call_endsWith (itemValue operand : value) : bool :=
  match itemValue, operand with
  | VStr s, VStr search => endsWith s search
  | _, _ => false
  end.
Definition call_includes (itemValue operand : value) : bool :=
  match itemValue, operand with
  | VStr s, VStr search => string_includes s search
  | _, _ => false
  end.

Definition is_string (v : value) : bool := String.eqb (typeof v) "string".

(** [if (cond) return false; break;]: [Returns false] leaves [matches] with
    [false], [Returns true] goes on with the next operator. *)
Definition return_false_if (cond : bool) : completion bool := Returns (negb cond).

(** The [switch (operator)] of [matches]. *)
Definition switch_operator (operator : string) (itemValue operand : value)
  : completion bool :=
  if String.eqb operator "$eq" then
    return_false_if (negb (strict_equals itemValue operand))
  else if String.eqb operator "$ne" then
    return_false_if (strict_equals itemValue operand)
  else if String.eqb operator "$gt" then
    return_false_if (js_le itemValue operand)
  else if String.eqb operator "$gte" then
    return_false_if (js_lt itemValue operand)
  else if String.eqb operator "$lt" then
    return_false_if (js_ge itemValue operand)
  else if String.eqb operator "$lte" then
    return_false_if (js_gt itemValue operand)
  else if String.eqb operator "$in" then
    found <- includes operand itemValue ;;
    return_false_if (negb found)
  else if String.eqb operator "$nin" then
    found <- includes operand itemValue ;;
    return_false_if found
  else if String.eqb operator "$startsWith" then
    return_false_if (is_string itemValue && is_string operand
                     && negb (call_startsWith itemValue operand))
  else if String.eqb operator "$endsWith" then
    return_false_if (is_string itemValue && is_string operand
                     && negb (call_endsWith itemValue operand))
  else if String.eqb operator "$contains" then
    return_false_if (is_string itemValue && is_string operand
                     && negb (call_includes itemValue operand))
  else Returns false.

(** [for (const op in queryValue) { switch ... }] *)
Fixpoint match_operators (itemValue : value) (queryValue : object)
  : completion bool :=
  match queryValue with
  | [] => Returns true
  | (operator, operand) :: rest =>
      go_on <- switch_operator operator itemValue operand ;;
      if go_on then match_operators itemValue rest else Returns false
  end.

(** [Entity.matches] *)
Fixpoint matches (item : object) (query : object) : completion bool :=
  match query with
  | [] => Returns true
  | (key, queryValue) :: rest =>
      let itemValue := get_prop item key in
      go_on <-
        (if String.eqb (typeof queryValue) "object"
            && negb (is_null queryValue) && negb (isArray queryValue)
         then match_operators itemValue (own_props queryValue)
         else return_false_if (negb (strict_equals itemValue queryValue))) ;;
      if go_on then matches item rest else Returns false
  end.

End Evaluator.

(** ** Arrays *)

(** The index [Array.prototype.slice] derives from an argument: negative
    counts from the end, all is clamped to [0 .. len]. *)
Definition relative_index (len : Z) (n : number) : Z :=
  match n with
  | NaN => 0
  | NegInfinity => 0
  | PosInfinity => len
  | Num z => if (z <? 0)%Z then Z.max (len + z) 0 else Z.min z len
  end.

(** [l.slice(start, end)]; [None] is an omitted [end]. *)
Definition slice {A} (l : list A) (start : number) (end_ : option number) : list A :=
  let len := Z.of_nat (List.length l) in
  let k := relative_index len start in
  let final := match end_ with
               | None => len
               | Some e => relative_index len e
               end in
  firstn (Z.to_nat (final - k)) (skipn (Z.to_nat k) l).

(** ** The object store

    What [this.db().transaction(s, 'readonly').objectStore(s)] followed by a
    request does: one of the calls throws, or the request is made and later
    fires [onerror] or [onsuccess]. *)

Inductive response (A : Type) :=
| Raises (e : error)
| Fails (e : error)
| Succeeds (result : A).
Arguments Raises {A} e.
Arguments Fails {A} e.
Arguments Succeeds {A} result.

Record IDBDatabase := {
  (** [store.getAll()] on the named store *)
  store_getAll : string -> response (list object);
  (** [store.get(id)]; its result is [undefined] ([None]) when no record
      has the key *)
  store_get : string -> number -> response (option object)
}.

(** ** Builders *)

(** A refinement [(query) => query.where(..).limit(..)...] of a [with]
    directive is the chain of calls it makes on the query it is given; it
    returns that query. *)
Inductive BuilderCall :=
| CallWhere (query : object)
| CallLimit (count : number)
| CallSkip (count : number)
| CallWith (withs : list (string * list BuilderCall)).

Definition WithQuery := list (string * list BuilderCall).

Inductive RelationKind := OneToOne | OneToMany | ManyToMany.

(** [new OneToMany('posts', 'userId', 'id')] as written in [relations()]. *)
Record RelationDecl := {
  declKind : RelationKind;
  declStoreName : string;
  declForeignKey : string;
  declLocalKey : string
}.

(** A model class, as far as the executor reads it: the table its
    [relations()] builds, anew on every call. *)
Definition ModelClass := list (string * RelationDecl).

Record Entity := {
  storeName : string;
  db : option IDBDatabase;
  queries : list object;
  take : option number;
  offset : option number;
  withs : WithQuery;
  modelClass : option ModelClass
}.

Record Relation := {
  super : Entity;
  kind : RelationKind;
  foreignKey : string;
  localKey : string
}.

Definition new_Entity (storeName : string) (modelClass : option ModelClass) : Entity :=
  {| storeName := storeName; db := None; queries := []; take := None;
     offset := None; withs := []; modelClass := modelClass |}.

(** The constructor of [Relation] calls [super(storeName)]: a relation has
    no model class. *)
Definition new_Relation (decl : RelationDecl) : Relation :=
  {| super := new_Entity (declStoreName decl) None;
     kind := declKind decl;
     foreignKey := declForeignKey decl;
     localKey := declLocalKey decl |}.

Definition setDb (database : option IDBDatabase) (this : Entity) : Entity :=
  {| storeName := storeName this; db := database; queries := queries this;
     take := take this; offset := offset this; withs := withs this;
     modelClass := modelClass this |}.

Definition where_ (query : object) (this : Entity) : Entity :=
  {| storeName := storeName this; db := db this;
     queries := queries this ++ [query];
     take := take this; offset := offset this; withs := withs this;
     modelClass := modelClass this |}.

Definition limit (count : number) (this : Entity) : Entity :=
  {| storeName := storeName this; db := db this; queries := queries this;
     take := Some count; offset := offset this; withs := withs this;
     modelClass := modelClass this |}.

Definition skip (count : number) (this : Entity) : Entity :=
  {| storeName := storeName this; db := db this; queries := queries this;
     take := take this; offset := Some count; withs := withs this;
     modelClass := modelClass this |}.

Definition with_ (directives : WithQuery) (this : Entity) : Entity :=
  {| storeName := storeName this; db := db this; queries := queries this;
     take := take this; offset := offset this; withs := directives;
     modelClass := modelClass this |}.

Definition clear (this : Entity) : Entity :=
  {| storeName := storeName this; db := db this; queries := [];
     take := None; offset := None; withs := [];
     modelClass := modelClass this |}.

Definition call (c : BuilderCall) (query : Entity) : Entity :=
  match c with
  | CallWhere q => where_ q query
  | CallLimit n => limit n query
  | CallSkip n => skip n query
  | CallWith w => with_ w query
  end.

(** [queryBuilder(relatedQuery)] *)
Definition refine (queryBuilder : list BuilderCall) (relatedQuery : Entity) : Entity :=
  fold_left (fun query c => call c query) queryBuilder relatedQuery.

(** ** Models and relations *)

Fixpoint lookup {A} (table : list (string * A)) (name : string) : option A :=
  match table with
  | [] => None
  | (k, v) :: rest => if String.eqb k name then Some v else lookup rest name
  end.

(** [modelInstance.relations()] *)
Definition relations (modelClass : ModelClass) : list (string * Relation) :=
  map (fun entry => (fst entry, new_Relation (snd entry))) modelClass.

(** [Model.relation] *)
Definition relation (modelClass : ModelClass) (name : string) : completion Relation :=
  match lookup (relations modelClass) name with
  | None => Throws (Error ("Relation '" ++ name ++ "' not defined on model."))
  | Some r => Returns r
  end.

(** The call [this.where(query)] seen from its caller: the value it
    returns and the receiver after it.  [where] ends in [return this]. *)
Definition call_where (query : object) (this : Entity) : Entity * Entity :=
  let this' := where_ query this in
  (this', this').

(** [OneToOne.getRelated]: [return this.where({ [this.foreignKey]: v })],
    what [where] returns. *)
Definition OneToOne_getRelated (this : Relation) (model : object) : Entity :=
  let foreignKeyValue := get_prop model (localKey this) in
  fst (call_where [(foreignKey this, foreignKeyValue)] (super this)).

(** [OneToMany.getRelated]: [this.where(...)] for its effect, then
    [return this]. *)
Definition OneToMany_getRelated (this : Relation) (model : object) : Entity :=
  let foreignKeyValue := get_prop model (localKey this) in
  snd (call_where [(foreignKey this, foreignKeyValue)] (super this)).

(** [ManyToMany.getRelated]: [return this.where({ [this.foreignKey]:
    { $in: v } })]. *)
Definition ManyToMany_getRelated (this : Relation) (model : object) : Entity :=
  let foreignKeyValue := get_prop model (localKey this) in
  fst (call_where [(foreignKey this, VObj [("$in", foreignKeyValue)])] (super this)).

(** [relation.getRelated(model)], by the class of [relation]. *)
Definition getRelated (this : Relation) (model : object) : Entity :=
  match kind this with
  | OneToOne => OneToOne_getRelated this model
  | OneToMany => OneToMany_getRelated this model
  | ManyToMany => ManyToMany_getRelated this model
  end.

(** ** The executor *)

(** [if (n)] for a [number | null] field *)
Definition truthy (n : option number) : bool :=
  match n with
  | None => false
  | Some NaN => false
  | Some (Num z) => negb (z =? 0)%Z
  | Some _ => true
  end.

Section Executor.
Context `{Coercions}.

(** [this.queries.forEach(query => { results = results.filter(...) })] *)
Fixpoint apply_queries (queries : list object) (results : list object)
  : completion (list object) :=
  match queries with
  | [] => Returns results
  | query :: rest =>
      results' <- filterM (fun item => matches item query) results ;;
      apply_queries rest results'
  end.

(** [if (this.offset) results = results.slice(this.offset)] *)
Definition apply_skip (this : Entity) (results : list object) : list object :=
  match offset this with
  | Some n => if truthy (Some n) then slice results n None else results
  | None => results
  end.

(** [if (this.take) results = results.slice(0, this.take)] *)
Definition apply_limit (this : Entity) (results : list object) : list object :=
  match take this with
  | Some n => if truthy (Some n) then slice results (Num 0) (Some n) else results
  | None => results
  end.

(** The end of both success handlers: [this.clear(); resolve(result)] is
    reached when nothing before it threw; otherwise the handler's own
    promise is rejected and the promise of [get]/[find] is left pending. *)
Definition settle {A} (this : Entity) (handler : promise A) : promise A * Entity :=
  match handler with
  | Resolved a => (Resolved a, clear this)
  | Rejected e => (Unsettled e, this)
  | Unsettled e => (Unsettled e, this)
  end.

Section Open.
(** [loadRelations] calls [get] on the related query and [get] calls
    [loadRelations]; each is first written over the other. *)
Variable get : Entity -> promise (list object) * Entity.
Variable loadRelations : Entity -> object -> promise object.

(** The [for (const relationName in this.withs)] of [loadRelations]. *)
Fixpoint load_each (this : Entity) (modelClass : ModelClass)
    (directives : WithQuery) (model : object) : promise object :=
  match directives with
  | [] => Resolved model
  | (relationName, queryBuilder) :: rest =>
      declared <~ lift (relation modelClass relationName) ;;
      let bound :=
        {| super := setDb (db this) (super declared); kind := kind declared;
           foreignKey := foreignKey declared; localKey := localKey declared |} in
      let relatedQuery := getRelated bound model in
      let finalQuery := refine queryBuilder relatedQuery in
      related <~ fst (get finalQuery) ;;
      load_each this modelClass rest
        (set_prop model relationName (VArr (map VObj related)))
  end.

(** [loadRelations], with its two early returns: no model class, or a
    model whose [relations()] is empty.  It resolves with the model after
    the assignments of the loop. *)
Definition loadRelations_over (this : Entity) (model : object) : promise object :=
  match modelClass this with
  | None => Resolved model
  | Some modelClass =>
      if (List.length (relations modelClass) =? 0)%nat then Resolved model
      else load_each this modelClass (withs this) model
  end.

(** [if (Object.keys(this.withs).length > 0) for (const result of results)
    await this.loadRelations(result)] *)
Definition load_all (this : Entity) (results : list object) : promise (list object) :=
  if (0 <? List.length (withs this))%nat
  then forEach_await (loadRelations this) results
  else Resolved results.

(** The [request.onsuccess] of [get], up to [this.clear()]. *)
Definition get_onsuccess (this : Entity) (result : list object) : promise (list object) :=
  results <~ lift (apply_queries (queries this) result) ;;
  let results := apply_skip this results in
  let results := apply_limit this results in
  load_all this results.

(** [get]: the promise it returns and [this] once the call is over.  A
    throw before the request exists rejects the [async] call at once;
    [onerror] clears and rejects; [onsuccess] is [get_onsuccess] and its
    end. *)
Definition get_over (this : Entity) : promise (list object) * Entity :=
  match db this with
  | None => (Rejected (TypeError "this.db is not a function"), this)
  | Some database =>
      match store_getAll database (storeName this) with
      | Raises e => (Rejected e, this)
      | Fails e => (Rejected e, clear this)
      | Succeeds result => settle this (get_onsuccess this result)
      end
  end.

(** The [request.onsuccess] of [find], up to [this.clear()]. *)
Definition find_onsuccess (this : Entity) (result : option object)
  : promise (option object) :=
  match result with
  | Some model =>
      if (0 <? List.length (withs this))%nat
      then (model' <~ loadRelations this model ;; Resolved (Some model'))
      else Resolved (Some model)
  | None => Resolved None
  end.

(** [find], likewise. *)
Definition find_over (id : number) (this : Entity) : promise (option object) * Entity :=
  match db this with
  | None => (Rejected (TypeError "this.db is not a function"), this)
  | Some database =>
      match store_get database (storeName this) id with
      | Raises e => (Rejected e, this)
      | Fails e => (Rejected e, clear this)
      | Succeeds result => settle this (find_onsuccess this result)
      end
  end.

End Open.

(** A query that has no model class leaves [loadRelations] at its first
    line, [if (!this.modelClass) return]: that is every query a refinement
    hands back, since relations are built without one
    ([refine_getRelated_modelClass], [get_without_modelClass]). *)
Definition Relation_get : Entity -> promise (list object) * Entity :=
  get_over (fun _ model => Resolved model).

(** [Entity.loadRelations] *)
Definition loadRelations : Entity -> object -> promise object :=
  loadRelations_over Relation_get.

(** [Entity.get] *)
Definition get : Entity -> promise (list object) * Entity :=
  get_over loadRelations.

(** [Entity.find] *)
Definition find : number -> Entity -> promise (option object) * Entity :=
  find_over loadRelations.

(** *** Notions for stating the properties *)

(** The verdict of [matches] read as a boolean. *)
Definition holds (item query : object) : bool :=
  match matches item query with
  | Returns b => b
  | Throws _ => false
  end.

(** [matches] returns on every pair of a record and a clause. *)
Definition evaluable (queries results : list object) : Prop :=
  forall query item, In query queries -> In item results ->
    exists b, matches item query = Returns b.

(** What [get] does with the page it has cut out of the matching records:
    it loads their relations, clears the builder and resolves. *)
Definition deliver (this : Entity) (page : list object)
  : promise (list object) * Entity :=
  settle this (load_all loadRelations this page).

End Executor.

(** The operators of [matches] that call a string method. *)
Definition string_operator (operator : string) : Prop :=
  operator = "$startsWith" \/ operator = "$endsWith" \/ operator = "$contains".

(** ** Coercions on plain data

    The conversions for the data of the scenarios below: numbers compare by
    value with [NaN] unordered, two strings compare by code unit,
    [undefined] converts to [NaN], [null] and booleans to 0 and 1, a string
    facing a number to the double its numeric literal spells and to [NaN]
    when it spells none; arrays and objects convert through their string
    form.  A number is written with the fewest digits that read back as the
    same double. *)

Definition number_lt (x y : number) : option bool :=
  match x, y with
  | NaN, _ => None
  | _, NaN => None
  | Num a, Num b => Some (a <? b)%Z
  | NegInfinity, NegInfinity => Some false
  | NegInfinity, _ => Some true
  | _, NegInfinity => Some false
  | PosInfinity, _ => Some false
  | _, PosInfinity => Some true
  end.

(** *** Doubles *)

(** [p / q] rounded to the nearest integer, a tie to the even one. *)
Definition round_half_even (p q : Z) : Z :=
  let m := (p / q)%Z in
  let r := (p mod q)%Z in
  if (q <? 2 * r)%Z || ((2 * r =? q)%Z && Z.odd m) then (m + 1)%Z else m.

(** The [e] with [2 ^ e <= p / q < 2 ^ (e + 1)], for positive [p] and [q]. *)
Definition binade (p q : Z) : Z :=
  if (q <=? p)%Z then Z.log2 (p / q) else (- Z.log2_up ((q + p - 1) / p))%Z.

(** The double nearest to [p / q], for [0 <= p] and [0 < q], when it is an
    integer: a double has 53 significant bits, none below [2 ^ -1074], and
    what rounds to [2 ^ 1024] is infinite.  A double that is not an integer
    is no number of the data and is given as [NaN]. *)
Definition nearest_double (p q : Z) : number :=
  if (p =? 0)%Z then Num 0
  else
    let scale := Z.min (52 - binade p q) 1074 in
    if (0 <=? scale)%Z then
      let m := round_half_even (p * 2 ^ scale) q in
      if (m mod 2 ^ scale =? 0)%Z then Num (m / 2 ^ scale) else NaN
    else
      let m := round_half_even p (q * 2 ^ (- scale)) in
      if (2 ^ 1024 <=? m * 2 ^ (- scale))%Z then PosInfinity
      else Num (m * 2 ^ (- scale)).

Definition negate (n : number) : number :=
  match n with
  | NaN => NaN
  | Num z => Num (- z)
  | PosInfinity => NegInfinity
  | NegInfinity => PosInfinity
  end.

(** *** Numeric strings *)

(** White space and line terminators. *)
Definition is_white_space (c : ascii) : bool :=
  existsb (Nat.eqb (nat_of_ascii c)) [9; 10; 11; 12; 13; 32; 160]%nat.

Fixpoint trim_start (s : string) : string :=
  match s with
  | String c rest => if is_white_space c then trim_start rest else s
  | EmptyString => s
  end.

Fixpoint trim_end (s : string) : string :=
  match s with
  | EmptyString => EmptyString
  | String c rest =>
      match trim_end rest with
      | EmptyString => if is_white_space c then EmptyString else String c EmptyString
      | rest' => String c rest'
      end
  end.

Definition digit_value (c : ascii) : option Z :=
  let n := Z.of_nat (nat_of_ascii c) in
  if (48 <=? n)%Z && (n <=? 57)%Z then Some (n - 48)%Z
  else if (97 <=? n)%Z && (n <=? 102)%Z then Some (n - 87)%Z
  else if (65 <=? n)%Z && (n <=? 70)%Z then Some (n - 55)%Z
  else None.

(** The longest prefix of [s] made of digits of [radix]: its value after
    [acc], how many they are, and what follows them. *)
Fixpoint read_digits (radix acc : Z) (count : nat) (s : string) : Z * nat * string :=
  match s with
  | EmptyString => (acc, count, s)
  | String c rest =>
      match digit_value c with
      | Some d =>
          if (d <? radix)%Z then read_digits radix (radix * acc + d) (S count) rest
          else (acc, count, s)
      | None => (acc, count, s)
      end
  end.

(** [0x], [0o] or [0b] and digits, nothing else. *)
Definition non_decimal_literal (s : string) : option Z :=
  match s with
  | String "0" (String c digits) =>
      let radix :=
        if (Ascii.eqb c "x" || Ascii.eqb c "X")%bool then Some 16%Z
        else if (Ascii.eqb c "o" || Ascii.eqb c "O")%bool then Some 8%Z
        else if (Ascii.eqb c "b" || Ascii.eqb c "B")%bool then Some 2%Z
        else None in
      match radix with
      | Some r =>
          match read_digits r 0 0 digits with
          | (n, S _, EmptyString) => Some n
          | _ => None
          end
      | None => None
      end
  | _ => None
  end.

(** The exponent part: nothing, or [e] or [E], a sign if any, and digits. *)
Definition exponent_part (s : string) : option Z :=
  match s with
  | EmptyString => Some 0%Z
  | String c rest =>
      if (Ascii.eqb c "e" || Ascii.eqb c "E")%bool then
        let (negative, digits) :=
          match rest with
          | String "-" d => (true, d)
          | String "+" d => (false, d)
          | _ => (false, rest)
          end in
        match read_digits 10 0 0 digits with
        | (n, S _, EmptyString) => Some (if negative then - n else n)%Z
        | _ => None
        end
      else None
  end.

(** An unsigned decimal literal, as the mantissa [m] and the exponent [e]
    of its value [m * 10 ^ e]: digits, a fraction if any, an exponent part
    if any, with a digit on one side of the point at least. *)
Definition decimal_literal (s : string) : option (Z * Z) :=
  let '(whole, whole_digits, after) := read_digits 10 0 0 s in
  let '(mantissa, fraction_digits, after) :=
    match after with
    | String "." fraction => read_digits 10 whole 0 fraction
    | _ => (whole, 0%nat, after)
    end in
  match (whole_digits + fraction_digits)%nat, exponent_part after with
  | S _, Some e => Some (mantissa, (e - Z.of_nat fraction_digits)%Z)
  | _, _ => None
  end.

(** [m * 10 ^ e] as a double; beyond [10 ^ 400] and below [10 ^ -400] the
    answer does not depend on the digits. *)
Definition decimal_value (m e : Z) : number :=
  if (m =? 0)%Z then Num 0
  else if (400 <? e)%Z then PosInfinity
  else if (e <? - 400 - Z.log2 m)%Z then Num 0
  else if (0 <=? e)%Z then nearest_double (m * 10 ^ e) 1
  else nearest_double m (10 ^ (- e)).

Definition unsigned_literal (s : string) : number :=
  if String.eqb s "Infinity" then PosInfinity
  else match decimal_literal s with
       | Some (m, e) => decimal_value m e
       | None => NaN
       end.

(** StringToNumber: the empty string is 0; a literal may have white space
    on both sides and, unless it has a radix prefix, a sign; every other
    string is [NaN]. *)
Definition string_to_number (s : string) : number :=
  match trim_end (trim_start s) with
  | EmptyString => Num 0
  | String c rest as literal =>
      match non_decimal_literal literal with
      | Some n => nearest_double n 1
      | None =>
          if Ascii.eqb c "-" then negate (unsigned_literal rest)
          else if Ascii.eqb c "+" then unsigned_literal rest
          else unsigned_literal literal
      end
  end.

(** *** Numbers as strings *)

Definition decimal (z : Z) : string := DecimalString.NilZero.string_of_int (Z.to_int z).

Fixpoint strip_zeros (s : string) : string :=
  match s with
  | EmptyString => EmptyString
  | String c rest =>
      match strip_zeros rest with
      | EmptyString => if Ascii.eqb c "0" then EmptyString else String c EmptyString
      | rest' => String c rest'
      end
  end.

(** The integer with the fewest significant digits that the double [z]
    is the nearest double of, tried from one digit up: at each length the
    two candidates around [z], the nearer first. *)
Fixpoint shortest (z : Z) (unit : Z) (fuel : nat) : Z :=
  match fuel with
  | O => z
  | S fuel' =>
      let below := (z / unit * unit)%Z in
      let above := (below + unit)%Z in
      let rounds_to_z c :=
        match nearest_double c 1 with Num d => (d =? z)%Z | _ => false end in
      let below_first :=
        (2 * (z - below) <? unit)%Z
        || ((2 * (z - below) =? unit)%Z && Z.even (z / unit)) in
      let first := if below_first then below else above in
      let second := if below_first then above else below in
      if rounds_to_z first then first
      else if rounds_to_z second then second
      else shortest z (unit / 10) fuel'
  end.

(** A positive integer: below [2 ^ 53] with all its digits, from there on
    with the digits of [shortest] followed by zeros, and from [10 ^ 21] on
    as [d.ddde+n]. *)
Definition positive_to_string (z : Z) : string :=
  let digits := String.length (decimal z) in
  let written :=
    if (z <? 2 ^ 53)%Z then z
    else shortest z (10 ^ Z.of_nat (digits - 1)) digits in
  if (written <? 10 ^ 21)%Z then decimal written
  else
    let exponent := decimal (Z.of_nat (String.length (decimal written) - 1)) in
    match strip_zeros (decimal written) with
    | String d EmptyString => String d ("e+" ++ exponent)
    | String d rest => String d ("." ++ rest ++ "e+" ++ exponent)
    | EmptyString => EmptyString
    end.

Definition number_to_string (n : number) : string :=
  match n with
  | NaN => "NaN"
  | Num z =>
      if (z <? 0)%Z then "-" ++ positive_to_string (- z)
      else if (z =? 0)%Z then "0"
      else positive_to_string z
  | PosInfinity => "Infinity"
  | NegInfinity => "-Infinity"
  end.

Fixpoint to_string (v : value) : string :=
  match v with
  | VUndefined => "undefined"
  | VNull => "null"
  | VBool true => "true"
  | VBool false => "false"
  | VNum n => number_to_string n
  | VStr s => s
  | VArr items =>
      (fix join (l : list value) : string :=
         match l with
         | [] => EmptyString
         | x :: rest =>
             let first := match x with
                          | VUndefined | VNull => EmptyString
                          | _ => to_string x
                          end in
             match rest with
             | [] => first
             | _ :: _ => (first ++ "," ++ join rest)%string
             end
         end) items
  | VObj _ => "[object Object]"
  end.

Definition to_number (v : value) : number :=
  match v with
  | VNum n => n
  | VNull => Num 0
  | VBool true => Num 1
  | VBool false => Num 0
  | VStr s => string_to_number s
  | _ => NaN
  end.

Definition to_primitive (v : value) : value :=
  match v with
  | VArr _ | VObj _ => VStr (to_string v)
  | _ => v
  end.

Definition is_less_than (x y : value) : option bool :=
  match to_primitive x, to_primitive y with
  | VStr s, VStr t => Some (String.ltb s t)
  | px, py => number_lt (to_number px) (to_number py)
  end.

#[export] Instance PlainData : Coercions :=
  {| IsLessThan := is_less_than; ToString := to_string |}.

(** ** The stores of the test suite

    [users] and [posts] as the tests fill them, the model class [User] of
    the tests, and a connection that has been closed: every [transaction]
    on it throws. *)

Definition user (id : Z) (name : string) (age : Z) : object :=
  [("id", VNum (Num id)); ("name", VStr name); ("age", VNum (Num age))].

Definition post (id : Z) (title : string) (userId : Z) : object :=
  [("id", VNum (Num id)); ("title", VStr title); ("userId", VNum (Num userId))].

Definition Alice := user 1 "Alice" 30.
Definition Bob := user 2 "Bob" 25.
Definition Charlie := user 3 "Charlie" 35.
Definition David := user 4 "David" 25.

Definition users_store : list object := [Alice; Bob; Charlie; David].

Definition posts_store : list object :=
  [post 1 "Post 1 by Alice" 1; post 2 "Post 2 by Alice" 1; post 3 "Post 1 by Bob" 2].

Definition by_key (id : number) (records : list object) : option object :=
  List.find (fun record => strict_equals (get_prop record "id") (VNum id)) records.

Definition test_db : IDBDatabase :=
  {| store_getAll := fun name =>
       if String.eqb name "users" then Succeeds users_store
       else if String.eqb name "posts" then Succeeds posts_store
       else Raises (DOMException "NotFoundError");
     store_get := fun name id =>
       if String.eqb name "users" then Succeeds (by_key id users_store)
       else if String.eqb name "posts" then Succeeds (by_key id posts_store)
       else Raises (DOMException "NotFoundError") |}.

Definition closed_db : IDBDatabase :=
  {| store_getAll := fun _ => Raises (DOMException "InvalidStateError");
     store_get := fun _ _ => Raises (DOMException "InvalidStateError") |}.

Definition User : ModelClass :=
  [("posts", {| declKind := OneToMany; declStoreName := "posts";
                declForeignKey := "userId"; declLocalKey := "id" |})].

(** [Post] overrides nothing: its [relations()] is the empty table of
    [Model]. *)
Definition Post : ModelClass := [].

(** [db.users] and [db.posts] of the tests, connected. *)
Definition db_users : Entity := setDb (Some test_db) (new_Entity "users" (Some User)).

(** [{ field: { operator: operand } }] *)
Definition clause (field operator : string) (operand : value) : object :=
  [(field, VObj [(operator, operand)])].

(** The clause [{ age: { $lt: 35 } }]. *)
Definition younger_than_35 : object := [("age", VObj [("$lt", VNum (Num 35))])].


(** The operator symbols [matches] knows. *)
Definition operators : list string :=
  ["$eq"; "$ne"; "$gt"; "$gte"; "$lt"; "$lte"; "$in"; "$nin";
   "$startsWith"; "$endsWith"; "$contains"].


(** The related query of a relation as [loadRelations] binds it. *)
Definition bound_relation (database : option IDBDatabase) (decl : RelationDecl)
  : Relation :=
  {| super := setDb database (super (new_Relation decl));
     kind := kind (new_Relation decl);
     foreignKey := foreignKey (new_Relation decl);
     localKey := localKey (new_Relation decl) |}.


(** ** The database manager

    [Idb] of [orm/idb.ts].  A connection is known by its object stores (the
    order of the list carries no meaning) and by what requests on it do, the
    part the entities use.  The properties of
    a manager are the fields its subclass declares; an entity among them is
    [bound] once [initializeEntities] has given it the function
    [() => this.getDb()], which reads the manager anew at every call. *)

Record ObjectStore := {
  osName : string;
  osKeyPath : string;
  osAutoIncrement : bool
}.

Record Connection := {
  objectStores : list ObjectStore;
  requests : IDBDatabase
}.

(** [db.objectStoreNames.contains(name)] *)
Definition contains (db : Connection) (name : string) : bool :=
  existsb (fun store => String.eqb (osName store) name) (objectStores db).

(** [db.createObjectStore(name, { keyPath, autoIncrement })], in an upgrade
    and for a name the connection does not hold yet. *)
Definition createObjectStore (name keyPath : string) (autoIncrement : bool)
    (db : Connection) : Connection :=
  {| objectStores :=
       objectStores db
       ++ [{| osName := name; osKeyPath := keyPath;
              osAutoIncrement := autoIncrement |}];
     requests := requests db |}.

(** [db.close()]: from then on every [transaction] on the connection
    throws. *)
Definition close (db : Connection) : Connection :=
  {| objectStores := objectStores db; requests := closed_db |}.

Inductive Property :=
| EntityProperty (entity : Entity) (bound : bool)
| OtherProperty (v : value).

Record Idb := {
  Idb_db : option Connection;
  dbName : string;
  dbVersion : number;
  properties : list (string * Property)
}.

(** [constructor(dbName, version = 1)] of a subclass with the given fields;
    its entities are as [new Entity(...)] leaves them. *)
Definition new_Idb (dbName : string) (version : option number)
    (fields : list (string * Entity)) : Idb :=
  {| Idb_db := None;
     dbName := dbName;
     dbVersion := match version with Some v => v | None => Num 1 end;
     properties := map (fun field => (fst field, EntityProperty (snd field) false))
                       fields |}.

(** [this.db = db] *)
Definition set_db (db : option Connection) (this : Idb) : Idb :=
  {| Idb_db := db; dbName := dbName this; dbVersion := dbVersion this;
     properties := properties this |}.

(** [Idb.getDb] *)
Definition getDb (this : Idb) : completion Connection :=
  match Idb_db this with
  | None => Throws (Error "Database is not connected. Call connect() first.")
  | Some db => Returns db
  end.

(** The callback of [createObjectStores], on one property. *)
Definition store_step (db : Connection) (prop : string * Property) : Connection :=
  match snd prop with
  | EntityProperty entity _ =>
      if negb (contains db (storeName entity))
      then createObjectStore (storeName entity) "id" true db
      else db
  | OtherProperty _ => db
  end.

(** [Idb.createObjectStores]: [Object.values(this).forEach(...)] *)
Definition createObjectStores (this : Idb) (db : Connection) : Connection :=
  fold_left store_step (properties this) db.

(** [Idb.initializeEntities] *)
Definition initializeEntities (this : Idb) : Idb :=
  {| Idb_db := Idb_db this; dbName := dbName this; dbVersion := dbVersion this;
     properties :=
       map (fun prop =>
              (fst prop,
               match snd prop with
               | EntityProperty entity _ => EntityProperty entity true
               | OtherProperty v => OtherProperty v
               end))
           (properties this) |}.

(** What [this.db()] and a request after it do on a bound entity: [getDb]
    throws, or hands over the connection. *)
Definition through_getDb (this : Idb) : IDBDatabase :=
  match getDb this with
  | Returns db => requests db
  | Throws e => {| store_getAll := fun _ => Raises e;
                   store_get := fun _ _ => Raises e |}
  end.

(** The entity [this[name]] as its caller finds it. *)
Definition entity_property (this : Idb) (name : string) : option Entity :=
  match lookup (properties this) name with
  | Some (EntityProperty entity true) =>
      Some (setDb (Some (through_getDb this)) entity)
  | Some (EntityProperty entity false) => Some entity
  | _ => None
  end.

(** How the promise of [connect] or [dropDatabase] stands. *)
Inductive settlement :=
| StillPending
| Fulfilled
| RejectedWith (e : error)
| RejectedWithText (text : string).

(** [resolve] and [reject] act on a pending promise only. *)
Definition settle_with (now : settlement) (state : settlement) : settlement :=
  match state with
  | StillPending => now
  | _ => state
  end.

(** The events of the request [indexedDB.open] returns, with
    [event.target.result] or [event.target.error]. *)
Inductive OpenEvent :=
| upgradeneeded (result : Connection)
| success (result : Connection)
| open_error (e : error).

(** The three handlers [connect] installs. *)
Definition on_open (state : settlement * Idb) (event : OpenEvent)
  : settlement * Idb :=
  let (promise_, this) := state in
  match event with
  | upgradeneeded result =>
      (promise_, set_db (Some (createObjectStores this result)) this)
  | success result =>
      (settle_with Fulfilled promise_,
       initializeEntities (set_db (Some result) this))
  | open_error e => (settle_with (RejectedWith e) promise_, this)
  end.

(** [Idb.connect], given what [indexedDB.open] does: it throws, or returns
    a request that fires the events. *)
Definition connect (opened : completion (list OpenEvent)) (this : Idb)
  : settlement * Idb :=
  match opened with
  | Throws e => (RejectedWith e, this)
  | Returns events => fold_left on_open events (StillPending, this)
  end.

(** [Idb.disconnect] *)
Definition disconnect (this : Idb) : Idb :=
  match Idb_db this with
  | Some db => set_db (Some (close db)) this
  | None => this
  end.

(** The events of the request [indexedDB.deleteDatabase] returns. *)
Inductive DeleteEvent :=
| delete_success
| delete_error (e : error)
| delete_blocked.

Definition on_delete (state : settlement) (event : DeleteEvent) : settlement :=
  match event with
  | delete_success => settle_with Fulfilled state
  | delete_error e => settle_with (RejectedWith e) state
  | delete_blocked => settle_with (RejectedWithText "delete db is blocked") state
  end.

(** [Idb.dropDatabase], given the names [indexedDB.databases()] resolves
    with and what [indexedDB.deleteDatabase] does. *)
Definition dropDatabase (databases : promise (list string))
    (deleting : completion (list DeleteEvent)) (this : Idb)
  : settlement * Idb :=
  match databases with
  | Resolved names =>
      if existsb (fun name => String.eqb name (dbName this)) names
      then
        let this := disconnect this in
        match deleting with
        | Throws e => (RejectedWith e, this)
        | Returns events => (fold_left on_delete events StillPending, this)
        end
      else (Fulfilled, this)
  | Rejected e => (RejectedWith e, this)
  | Unsettled _ => (StillPending, this)
  end.

(** The calls a program makes on a manager. *)
Inductive IdbCall :=
| call_connect (opened : completion (list OpenEvent))
| call_disconnect
| call_dropDatabase (databases : promise (list string))
                    (deleting : completion (list DeleteEvent)).

Definition run_call (this : Idb) (c : IdbCall) : Idb :=
  match c with
  | call_connect opened => snd (connect opened this)
  | call_disconnect => disconnect this
  | call_dropDatabase databases deleting =>
      snd (dropDatabase databases deleting this)
  end.



(** The stores an upgrade adds are those of entities, keyed by ["id"] with
    generated keys. *)
Definition entity_store (this : Idb) (store : ObjectStore) : Prop :=
  osKeyPath store = "id" /\ osAutoIncrement store = true
  /\ exists name entity bound,
       In (name, EntityProperty entity bound) (properties this)
       /\ osName store = storeName entity.


(** What every call keeps: the properties are the fields the manager was
    built with, each entity as it was built, bound only under a
    connection. *)
Definition built_from (fields : list (string * Entity)) (this : Idb) : Prop :=
  Forall2 (fun field prop =>
             fst prop = fst field
             /\ exists bound,
                 snd prop = EntityProperty (snd field) bound
                 /\ (bound = true -> Idb_db this <> None))
          fields (properties this).


(** [TestDb] of the tests, and the connection its first [connect] opens. *)
Definition TestDb : Idb :=
  new_Idb "test-db" None
    [("users", new_Entity "users" (Some User));
     ("posts", new_Entity "posts" (Some Post))].

Definition opened_connection : Connection :=
  {| objectStores := []; requests := test_db |}.

(** The relation [posts] of [User]. *)
Definition posts_of_User : RelationDecl :=
  {| declKind := OneToMany; declStoreName := "posts";
     declForeignKey := "userId"; declLocalKey := "id" |}.

(** * Properties *)

(** ** Slicing *)

Lemma slice_from_nat {A} (l : list A) (n : nat) :
  slice l (Num (Z.of_nat n)) None = skipn n l.
Proof.
  unfold slice, relative_index.
  destruct (Z.ltb_spec (Z.of_nat n) 0) as [Hneg | _]; [lia |].
  destruct (Nat.le_gt_cases n (List.length l)) as [Hle | Hgt].
  - rewrite Z.min_l by lia. rewrite Nat2Z.id.
    replace (Z.to_nat (Z.of_nat (List.length l) - Z.of_nat n))
      with (List.length (skipn n l)) by (rewrite length_skipn; lia).
    apply firstn_all.
  - rewrite Z.min_r by lia. rewrite Z.sub_diag, Nat2Z.id. cbn [Z.to_nat firstn].
    symmetry. apply skipn_all2. lia.
Qed.

Lemma slice_upto_nat {A} (l : list A) (m : nat) :
  slice l (Num 0) (Some (Num (Z.of_nat m))) = firstn m l.
Proof.
  unfold slice, relative_index.
  destruct (Z.ltb_spec (Z.of_nat m) 0) as [Hneg | _]; [lia |].
  cbn [Z.ltb Z.compare]. rewrite (Z.min_l 0) by lia.
  rewrite Z.sub_0_r. cbn [Z.to_nat skipn].
  destruct (Nat.le_gt_cases m (List.length l)) as [Hle | Hgt].
  - rewrite Z.min_l by lia. now rewrite Nat2Z.id.
  - rewrite Z.min_r by lia. rewrite Nat2Z.id, firstn_all.
    symmetry. apply firstn_all2. lia.
Qed.

Lemma slice_from_negative {A} (l : list A) (n : Z) :
  (n < 0)%Z ->
  slice l (Num n) None = skipn (List.length l - Z.to_nat (- n)) l.
Proof.
  intros Hn. unfold slice, relative_index.
  destruct (Z.ltb_spec n 0) as [_ | Hge]; [| lia].
  replace (Z.to_nat (Z.max (Z.of_nat (List.length l) + n) 0))
    with (List.length l - Z.to_nat (- n))%nat by lia.
  set (k := (List.length l - Z.to_nat (- n))%nat).
  replace (Z.to_nat (Z.of_nat (List.length l)
                     - Z.max (Z.of_nat (List.length l) + n) 0))
    with (List.length (skipn k l)) by (rewrite length_skipn; subst k; lia).
  apply firstn_all.
Qed.

Lemma slice_upto_negative {A} (l : list A) (n : Z) :
  (n < 0)%Z ->
  slice l (Num 0) (Some (Num n)) = firstn (List.length l - Z.to_nat (- n)) l.
Proof.
  intros Hn. unfold slice, relative_index.
  destruct (Z.ltb_spec n 0) as [_ | Hge]; [| lia].
  cbn [Z.ltb Z.compare]. rewrite (Z.min_l 0) by lia.
  rewrite Z.sub_0_r. cbn [Z.to_nat skipn].
  f_equal. lia.
Qed.

Section Properties.
Context `{Coercions}.

(** ** Filtering *)

Lemma filterM_total {A} (p : A -> completion bool) (q : A -> bool) (l : list A) :
  (forall x, In x l -> p x = Returns (q x)) ->
  filterM p l = Returns (filter q l).
Proof.
  induction l as [| x rest IH]; intros Hp; [reflexivity |].
  cbn [filterM filter]. rewrite (Hp x (or_introl eq_refl)). cbn [bind].
  rewrite IH by (intros y Hy; apply Hp; now right). reflexivity.
Qed.

Lemma filterM_all {A} (p : A -> completion bool) (l : list A) :
  (forall x, In x l -> p x = Returns true) -> filterM p l = Returns l.
Proof.
  induction l as [| x rest IH]; intros Hp; [reflexivity |].
  cbn [filterM]. rewrite (Hp x (or_introl eq_refl)). cbn [bind].
  rewrite IH by (intros y Hy; apply Hp; now right). reflexivity.
Qed.

Lemma apply_queries_app (qs1 qs2 : list object) (results : list object) :
  apply_queries (qs1 ++ qs2) results
  = (kept <- apply_queries qs1 results ;; apply_queries qs2 kept).
Proof.
  revert results. induction qs1 as [| q qs1 IH]; intros results; [reflexivity |].
  cbn [app apply_queries].
  destruct (filterM (fun item => matches item q) results) as [kept | e];
    cbn [bind]; [apply IH | reflexivity].
Qed.

(** The clauses act as their conjunction. *)
Lemma apply_queries_filter (qs : list object) (results : list object) :
  evaluable qs results ->
  apply_queries qs results
  = Returns (filter (fun item => forallb (holds item) qs) results).
Proof.
  revert results. induction qs as [| q qs IH]; intros results Hev.
  - cbn [apply_queries forallb]. f_equal. induction results as [| x r IHr];
      [reflexivity |]. cbn [filter]. f_equal. apply IHr. intros ? ? [].
  - cbn [apply_queries].
    rewrite (filterM_total _ (fun item => holds item q)).
    + cbn [bind]. rewrite IH.
      * f_equal. clear. induction results as [| x r IHr]; [reflexivity |].
        cbn [filter forallb]. destruct (holds x q); cbn [filter andb];
          [destruct (forallb (holds x) qs) |]; now rewrite IHr.
      * intros query item Hq Hi. apply filter_In in Hi as [Hi _].
        apply Hev; [now right | exact Hi].
    + intros item Hi. unfold holds.
      destruct (Hev q item (or_introl eq_refl) Hi) as [b Hb]. now rewrite Hb.
Qed.

(** ** What the executor reads

    Relation loading reads the database handle, the directive and the model
    class of [this], and nothing of its clauses and bounds. *)

Lemma load_each_db get (this this' : Entity) mc ds model :
  db this = db this' ->
  load_each get this mc ds model = load_each get this' mc ds model.
Proof.
  intros Hdb. revert model. induction ds as [| [name builder] ds IH]; intros model;
    [reflexivity |].
  cbn [load_each]. rewrite Hdb.
  destruct (lift (relation mc name)) as [r | e | e]; cbn [await]; try reflexivity.
  match goal with |- await ?p _ = _ => destruct p as [rs | e | e] end;
    cbn [await]; [apply IH | reflexivity | reflexivity].
Qed.

Lemma loadRelations_reads (this this' : Entity) model :
  db this = db this' -> withs this = withs this' ->
  modelClass this = modelClass this' ->
  loadRelations this model = loadRelations this' model.
Proof.
  intros Hdb Hw Hmc. unfold loadRelations, loadRelations_over.
  rewrite Hmc, Hw. destruct (modelClass this') as [mc |]; [| reflexivity].
  destruct (List.length (relations mc) =? 0)%nat; [reflexivity |].
  now apply load_each_db.
Qed.

Lemma load_all_reads (this this' : Entity) results :
  db this = db this' -> withs this = withs this' ->
  modelClass this = modelClass this' ->
  load_all loadRelations this results = load_all loadRelations this' results.
Proof.
  intros Hdb Hw Hmc. unfold load_all. rewrite Hw.
  destruct (0 <? List.length (withs this'))%nat; [| reflexivity].
  induction results as [| x rest IH]; [reflexivity |].
  cbn [forEach_await]. rewrite (loadRelations_reads this this') by assumption.
  now rewrite IH.
Qed.

Lemma load_all_no_directive (this : Entity) results :
  withs this = [] -> load_all loadRelations this results = Resolved results.
Proof. intros Hw. unfold load_all. now rewrite Hw. Qed.

Lemma fst_settle {A} (this this' : Entity) (handler : promise A) :
  fst (settle this handler) = fst (settle this' handler).
Proof. now destruct handler. Qed.

(** When the request succeeds, [get] is its success handler followed by
    [settle]. *)
Lemma get_succeeds (this : Entity) database result :
  db this = Some database ->
  store_getAll database (storeName this) = Succeeds result ->
  get this = settle this (get_onsuccess loadRelations this result).
Proof. intros Hdb Hreq. unfold get, get_over. now rewrite Hdb, Hreq. Qed.

(** ** The predicate evaluator *)

Lemma match_operators_skip itemValue before operator operand after :
  switch_operator operator itemValue operand = Returns true ->
  match_operators itemValue (before ++ (operator, operand) :: after)
  = match_operators itemValue (before ++ after).
Proof.
  intros Hop. induction before as [| [op' operand'] before IH].
  - cbn [app match_operators]. now rewrite Hop.
  - cbn [app match_operators].
    destruct (switch_operator op' itemValue operand') as [[|] | e];
      cbn [bind]; [exact IH | reflexivity | reflexivity].
Qed.

Lemma string_operator_on_non_string operator itemValue operand :
  string_operator operator ->
  is_string itemValue = false \/ is_string operand = false ->
  switch_operator operator itemValue operand = Returns true.
Proof.
  intros Hop Hty.
  assert (Hguard : forall b, is_string itemValue && is_string operand && b = false).
  { intros b. destruct Hty as [-> | ->]; [reflexivity |].
    now rewrite andb_false_r. }
  destruct Hop as [-> | [-> | ->]]; unfold switch_operator; cbn [String.eqb Ascii.eqb Bool.eqb];
    now rewrite Hguard.
Qed.

(** C1, as amended.  A string operator whose field value or operand is not
    a string raises nothing and constrains nothing: the clause matches as it
    does without that entry, and a clause made of that entry alone matches
    the record. *)
Theorem string_operator_skipped_on_non_string :
  forall (item : object) (key operator : string) (operand : value)
         (before after : object) (qbefore qafter : object),
    string_operator operator ->
    is_string (get_prop item key) = false \/ is_string operand = false ->
    matches item
      (qbefore ++ (key, VObj (before ++ (operator, operand) :: after)) :: qafter)
    = matches item (qbefore ++ (key, VObj (before ++ after)) :: qafter)
    /\ matches item [(key, VObj [(operator, operand)])] = Returns true.
Proof.
  intros item key operator operand before after qbefore qafter Hop Hty.
  pose proof (string_operator_on_non_string _ _ _ Hop Hty) as Hskip.
  split.
  - induction qbefore as [| [k v] qbefore IH].
    + cbn [app matches typeof is_null isArray own_props String.eqb Ascii.eqb
           Bool.eqb andb negb].
      now rewrite (match_operators_skip _ before _ _ after Hskip).
    + cbn [app matches]. now rewrite IH.
  - cbn [matches typeof is_null isArray own_props String.eqb Ascii.eqb
         Bool.eqb andb negb match_operators].
    now rewrite Hskip.
Qed.

(** C8.  On one record and one field, [$in] over a list and [$nin] over the
    same list return opposite verdicts, and neither raises: [$in] matches
    exactly when the list includes the field value, [$nin] exactly when it
    does not. *)
Theorem in_and_nin_are_complements :
  forall (item : object) (field : string) (L : list value),
    let listed := existsb (same_value_zero (get_prop item field)) L in
    matches item [(field, VObj [("$in", VArr L)])] = Returns listed
    /\ matches item [(field, VObj [("$nin", VArr L)])] = Returns (negb listed).
Proof.
  intros item field L listed. subst listed.
  split; cbn; now destruct (existsb _ L).
Qed.

(** C9.  The empty clause matches every record, so does a clause whose
    field carries an empty operator map, and [where({})] changes nothing of
    what [get] settles to. *)
Theorem empty_clause_matches_everything :
  forall (item : object) (field : string) (this : Entity),
    matches item [] = Returns true
    /\ matches item [(field, VObj [])] = Returns true
    /\ fst (get (where_ [] this)) = fst (get this).
Proof.
  intros item field this. repeat split.
  unfold get, get_over. cbn [where_ db storeName].
  destruct (db this) as [database |]; [| reflexivity].
  destruct (store_getAll database (storeName this)) as [e | e | result];
    try reflexivity.
  rewrite (fst_settle _ this). apply (f_equal fst). apply (f_equal (settle this)).
  unfold get_onsuccess. cbn [queries where_]. rewrite apply_queries_app.
  destruct (apply_queries (queries this) result) as [kept | e];
    cbn [bind lift await]; [| reflexivity].
  cbn [apply_queries]. rewrite filterM_all by reflexivity. cbn [bind lift await].
  now apply load_all_reads.
Qed.

(** ** Pagination *)

Lemma deliver_no_directive (this : Entity) page :
  withs this = [] -> deliver this page = (Resolved page, clear this).
Proof. intros Hw. unfold deliver. now rewrite load_all_no_directive. Qed.

Lemma get_delivers (this : Entity) database result matching :
  db this = Some database ->
  store_getAll database (storeName this) = Succeeds result ->
  apply_queries (queries this) result = Returns matching ->
  get this = deliver this (apply_limit this (apply_skip this matching)).
Proof.
  intros Hdb Hreq Hq. rewrite (get_succeeds this database result Hdb Hreq).
  unfold deliver, get_onsuccess. now rewrite Hq.
Qed.

Lemma get_pending (this : Entity) database result e :
  db this = Some database ->
  store_getAll database (storeName this) = Succeeds result ->
  apply_queries (queries this) result = Throws e ->
  get this = (Unsettled e, this).
Proof.
  intros Hdb Hreq Hq. rewrite (get_succeeds this database result Hdb Hreq).
  unfold get_onsuccess. now rewrite Hq.
Qed.





(** C10.  With a negative integer [n], over clauses that [matches]
    evaluates on the fetched records, [limit(n)] makes [get] resolve with the
    records that match every clause (after the skip, if one is set) without
    their last [|n|], and [skip(n)] makes it resolve with only the last [|n|]
    of the records that match every clause (capped by the limit, if one is
    set): the bound is sliced with as soon as it is truthy.  Under a
    directive the same page is the one whose relations are loaded. *)
Theorem negative_bounds_count_from_the_end :
  forall (this : Entity) (n : Z) (database : IDBDatabase) (result : list object),
    (n < 0)%Z ->
    db this = Some database ->
    store_getAll database (storeName this) = Succeeds result ->
    evaluable (queries this) result ->
    let matching :=
      filter (fun item => forallb (holds item) (queries this)) result in
    let all_but_last (l : list object) := firstn (List.length l - Z.to_nat (- n)) l in
    let last (l : list object) := skipn (List.length l - Z.to_nat (- n)) l in
    (withs this = [] ->
     get (limit (Num n) this)
     = (Resolved (all_but_last (apply_skip this matching)), clear this)
     /\ get (skip (Num n) this)
        = (Resolved (apply_limit this (last matching)), clear this))
    /\ (withs this = [] -> offset this = None ->
        fst (get (limit (Num n) this)) = Resolved (all_but_last matching))
    /\ (withs this = [] -> take this = None ->
        fst (get (skip (Num n) this)) = Resolved (last matching))
    /\ get (limit (Num n) this)
       = deliver (limit (Num n) this) (all_but_last (apply_skip this matching))
    /\ get (skip (Num n) this)
       = deliver (skip (Num n) this) (apply_limit this (last matching)).
Proof.
  intros this n database result Hn Hdb Hreq Hev matching all_but_last last.
  pose proof (apply_queries_filter _ _ Hev) as Hq. fold matching in Hq.
  assert (Htruthy : truthy (Some (Num n)) = true).
  { cbn [truthy]. destruct (Z.eqb_spec n 0); [lia | reflexivity]. }
  assert (Hlimit : get (limit (Num n) this)
                   = deliver (limit (Num n) this)
                       (all_but_last (apply_skip this matching))).
  { rewrite (get_delivers (limit (Num n) this) database result matching Hdb Hreq Hq).
    f_equal. unfold apply_limit. cbn [limit take]. rewrite Htruthy.
    now apply slice_upto_negative. }
  assert (Hskip : get (skip (Num n) this)
                  = deliver (skip (Num n) this) (apply_limit this (last matching))).
  { rewrite (get_delivers (skip (Num n) this) database result matching Hdb Hreq Hq).
    f_equal. unfold apply_skip at 1. cbn [skip offset]. rewrite Htruthy.
    rewrite slice_from_negative by exact Hn. reflexivity. }
  assert (Hboth : withs this = [] ->
            get (limit (Num n) this)
            = (Resolved (all_but_last (apply_skip this matching)), clear this)
            /\ get (skip (Num n) this)
               = (Resolved (apply_limit this (last matching)), clear this)).
  { intros Hw. rewrite Hlimit, Hskip.
    split; now rewrite deliver_no_directive by exact Hw. }
  split; [exact Hboth |].
  split; [| split; [| split; [exact Hlimit | exact Hskip]]].
  - intros Hw Hnone. destruct (Hboth Hw) as [-> _]. cbn [fst].
    unfold apply_skip. now rewrite Hnone.
  - intros Hw Hnone. destruct (Hboth Hw) as [_ ->]. cbn [fst].
    unfold apply_limit. now rewrite Hnone.
Qed.

(** C4, as amended.  With a skip [N] and a positive limit [M], over clauses
    that [matches] evaluates on the fetched records, [get] delivers the
    first [M] of what is left after dropping the first [N] of the records
    that match every clause; on [A, B, C, D] without clauses,
    [skip(1).limit(2)] resolves with [B, C]. *)
Theorem get_filters_then_skips_then_limits :
  (forall (this : Entity) (database : IDBDatabase) (result : list object)
          (N M : nat),
      db this = Some database ->
      store_getAll database (storeName this) = Succeeds result ->
      evaluable (queries this) result ->
      (0 < M)%nat ->
      let this' := limit (Num (Z.of_nat M)) (skip (Num (Z.of_nat N)) this) in
      get this'
      = deliver this'
          (firstn M (skipn N
             (filter (fun item => forallb (holds item) (queries this)) result))))
  /\ (forall (this : Entity) (database : IDBDatabase) (A B C D : object),
        db this = Some database ->
        store_getAll database (storeName this) = Succeeds [A; B; C; D] ->
        queries this = [] -> withs this = [] ->
        fst (get (limit (Num 2) (skip (Num 1) this))) = Resolved [B; C]).
Proof.
  assert (Hgen : forall (this : Entity) database result (N M : nat),
      db this = Some database ->
      store_getAll database (storeName this) = Succeeds result ->
      evaluable (queries this) result ->
      (0 < M)%nat ->
      get (limit (Num (Z.of_nat M)) (skip (Num (Z.of_nat N)) this))
      = deliver (limit (Num (Z.of_nat M)) (skip (Num (Z.of_nat N)) this))
          (firstn M (skipn N
             (filter (fun item => forallb (holds item) (queries this)) result)))).
  { intros this database result N M Hdb Hreq Hev HM.
    rewrite (get_delivers (limit (Num (Z.of_nat M)) (skip (Num (Z.of_nat N)) this))
               database result _ Hdb Hreq (apply_queries_filter _ _ Hev)).
    f_equal. unfold apply_skip, apply_limit. cbn [limit skip offset take].
    replace (truthy (Some (Num (Z.of_nat M)))) with true
      by (cbn [truthy]; destruct (Z.eqb_spec (Z.of_nat M) 0); [lia | reflexivity]).
    rewrite slice_upto_nat. f_equal.
    destruct N as [| N].
    - reflexivity.
    - replace (truthy (Some (Num (Z.of_nat (S N))))) with true
        by (cbn [truthy]; destruct (Z.eqb_spec (Z.of_nat (S N)) 0);
            [lia | reflexivity]).
      apply slice_from_nat. }
  split; [exact Hgen |].
  intros this database A B C D Hdb Hreq Hq Hw.
  assert (Hev : evaluable (queries this) [A; B; C; D])
    by (rewrite Hq; intros ? ? []).
  change (limit (Num 2) (skip (Num 1) this))
    with (limit (Num (Z.of_nat 2)) (skip (Num (Z.of_nat 1)) this)).
  rewrite (Hgen this database [A; B; C; D] 1%nat 2%nat Hdb Hreq Hev) by lia.
  rewrite deliver_no_directive by exact Hw.
  rewrite Hq. reflexivity.
Qed.

(** ** Related queries have no model class *)

Lemma refine_modelClass (queryBuilder : list BuilderCall) (query : Entity) :
  modelClass (refine queryBuilder query) = modelClass query.
Proof.
  unfold refine. revert query.
  induction queryBuilder as [| c rest IH]; intros query; [reflexivity |].
  cbn [fold_left]. rewrite IH. now destruct c.
Qed.

Lemma refine_getRelated_modelClass (decl : RelationDecl) database model queryBuilder :
  let relation := new_Relation decl in
  modelClass
    (refine queryBuilder
       (getRelated
          {| super := setDb database (super relation); kind := kind relation;
             foreignKey := foreignKey relation; localKey := localKey relation |}
          model)) = None.
Proof.
  cbn zeta. rewrite refine_modelClass. unfold getRelated. cbn [kind new_Relation].
  now destruct (declKind decl).
Qed.

(** On a query without a model class, [get] is [Relation_get]: the [get]
    that [loadRelations] awaits is [get] itself. *)
Lemma get_without_modelClass (this : Entity) :
  modelClass this = None -> get this = Relation_get this.
Proof.
  intros Hmc. unfold get, Relation_get, get_over.
  destruct (db this) as [database |]; [| reflexivity].
  destruct (store_getAll database (storeName this)) as [e | e | result];
    try reflexivity.
  f_equal. unfold get_onsuccess.
  destruct (lift (apply_queries (queries this) result)) as [kept | e | e];
    cbn [await]; try reflexivity.
  unfold load_all. destruct (0 <? List.length (withs this))%nat; [| reflexivity].
  generalize (apply_limit this (apply_skip this kept)) as page.
  induction page as [| x rest IH]; [reflexivity |].
  cbn [forEach_await]. rewrite IH.
  unfold loadRelations at 1, loadRelations_over. now rewrite Hmc.
Qed.

(** ** Clearing *)

(** An execution that resolved went through [settle] with a handler that
    resolved. *)
Ltac resolved_through_settle :=
  match goal with
  | |- context [settle _ ?handler] =>
      destruct handler; cbn [settle]; intros [= _ <-] || discriminate;
      reflexivity
  end.

Lemma get_resolved_clears (this this' : Entity) results :
  get this = (Resolved results, this') -> this' = clear this.
Proof.
  unfold get, get_over. destruct (db this) as [database |]; [| discriminate].
  destruct (store_getAll database (storeName this)) as [e | e | result];
    try discriminate.
  resolved_through_settle.
Qed.

Lemma get_failed_request_clears (this : Entity) database e :
  db this = Some database ->
  store_getAll database (storeName this) = Fails e ->
  get this = (Rejected e, clear this).
Proof. intros Hdb Hreq. unfold get, get_over. now rewrite Hdb, Hreq. Qed.

Lemma get_cleared_returns_all (this : Entity) database result :
  db this = Some database ->
  store_getAll database (storeName this) = Succeeds result ->
  get (clear this) = (Resolved result, clear this).
Proof.
  intros Hdb Hreq.
  rewrite (get_delivers (clear this) database result result Hdb Hreq eq_refl).
  now rewrite deliver_no_directive.
Qed.

Lemma get_raising_store_keeps_state (this : Entity) database e :
  db this = Some database ->
  store_getAll database (storeName this) = Raises e ->
  get this = (Rejected e, this).
Proof. intros Hdb Hreq. unfold get, get_over. now rewrite Hdb, Hreq. Qed.

(** C3, evaluated where the store call itself throws.  On a closed
    connection [get] and [find] reject with the store's exception and leave
    the clause and the limit in the builder; once the connection is back, the
    next [get] is still filtered and capped, where a cleared builder returns
    the whole store. *)
Theorem raising_store_keeps_builder_state :
  let this := where_ [("age", VNum (Num 25))]
                (limit (Num 1)
                   (setDb (Some closed_db) (new_Entity "users" (Some User)))) in
  get this = (Rejected (DOMException "InvalidStateError"), this)
  /\ find (Num 1) this = (Rejected (DOMException "InvalidStateError"), this)
  /\ queries (snd (get this)) = [[("age", VNum (Num 25))]]
  /\ take (snd (get this)) = Some (Num 1)
  /\ fst (get (setDb (Some test_db) (snd (get this)))) = Resolved [Bob]
  /\ fst (get (setDb (Some test_db) (clear this))) = Resolved users_store.
Proof. cbn zeta. repeat split; vm_compute; reflexivity. Qed.

(** A directive that names a relation the model does not declare: the
    error of [Model.relation] ends the success handler of the request, so
    the promise of [get] and of [find] is never settled and the builder is
    not cleared. *)
Lemma unknown_relation_leaves_get_pending :
  let this := with_ [("comments", [])] db_users in
  get this
  = (Unsettled (Error "Relation 'comments' not defined on model."), this)
  /\ find (Num 1) this
     = (Unsettled (Error "Relation 'comments' not defined on model."), this).
Proof. cbn zeta. split; vm_compute; reflexivity. Qed.




Lemma find_resolved_clears (id : number) (this this' : Entity) result :
  find id this = (Resolved result, this') -> this' = clear this.
Proof.
  unfold find, find_over. destruct (db this) as [database |]; [| discriminate].
  destruct (store_get database (storeName this) id) as [e | e | found];
    try discriminate.
  resolved_through_settle.
Qed.

Lemma find_failed_request_clears (id : number) (this : Entity) database e :
  db this = Some database ->
  store_get database (storeName this) id = Fails e ->
  find id this = (Rejected e, clear this).
Proof. intros Hdb Hreq. unfold find, find_over. now rewrite Hdb, Hreq. Qed.

Lemma find_raising_store_keeps_state (id : number) (this : Entity) database e :
  db this = Some database ->
  store_get database (storeName this) id = Raises e ->
  find id this = (Rejected e, this).
Proof. intros Hdb Hreq. unfold find, find_over. now rewrite Hdb, Hreq. Qed.

(** [find] on a key the store has no record for resolves with [undefined]
    and clears the builder. *)
Lemma find_absent_key (id : number) (this : Entity) database :
  db this = Some database ->
  store_get database (storeName this) id = Succeeds None ->
  find id this = (Resolved None, clear this).
Proof. intros Hdb Hreq. unfold find, find_over. now rewrite Hdb, Hreq. Qed.

(** What [find] settles to does not depend on the clauses, the limit or the
    skip of the builder. *)
Lemma find_ignores_clauses_and_bounds (id : number) (this : Entity)
    (clauses : list object) (cap start : option number) :
  fst (find id {| storeName := storeName this; db := db this;
                  queries := clauses; take := cap; offset := start;
                  withs := withs this; modelClass := modelClass this |})
  = fst (find id this).
Proof.
  unfold find, find_over. cbn [db storeName].
  destruct (db this) as [database |] eqn:Hdb; [| reflexivity].
  destruct (store_get database (storeName this) id) as [e | e | result];
    try reflexivity.
  rewrite (fst_settle _ this). apply (f_equal fst). apply (f_equal (settle this)).
  unfold find_onsuccess. cbn [withs].
  destruct result as [model |]; [| reflexivity].
  destruct (0 <? List.length (withs this))%nat; [| reflexivity].
  now rewrite (loadRelations_reads _ this) by (cbn; congruence).
Qed.

(** ** Relation descriptors *)

Lemma matches_literal (item : object) (key : string) (literal : value) :
  (forall props, literal <> VObj props) ->
  matches item [(key, literal)]
  = Returns (strict_equals (get_prop item key) literal).
Proof.
  intros Hlit. cbn [matches].
  destruct literal; cbn [typeof is_null isArray String.eqb Ascii.eqb Bool.eqb
                          andb negb return_false_if bind];
    try (now destruct (strict_equals _ _)).
  now destruct (Hlit props).
Qed.

(** C7.  [OneToOne.getRelated] and [OneToMany.getRelated] return the same
    query, the relation with the clause [{ foreignKey: model[localKey] }]
    added, so [get] on either settles alike; on a relation as constructed
    and bound to a database, both resolve with the records of the target
    store whose foreign key is strictly equal to the source record's local
    key value (for a key value that is not itself an object). *)
Theorem one_to_one_and_one_to_many_resolve_alike :
  forall (model : object),
    (forall (this : Relation),
        OneToOne_getRelated this model = OneToMany_getRelated this model
        /\ queries (OneToOne_getRelated this model)
           = queries (super this)
             ++ [[(foreignKey this, get_prop model (localKey this))]]
        /\ get (OneToOne_getRelated this model)
           = get (OneToMany_getRelated this model))
    /\ (forall (target foreign local : string) (database : IDBDatabase)
               (records : list object),
          let bound k :=
            {| super := setDb (Some database) (new_Entity target None);
               kind := k; foreignKey := foreign; localKey := local |} in
          getRelated (bound OneToOne) model = getRelated (bound OneToMany) model
          /\ (store_getAll database target = Succeeds records ->
              (forall props, get_prop model local <> VObj props) ->
              let related :=
                filter (fun record =>
                          strict_equals (get_prop record foreign)
                                        (get_prop model local)) records in
              fst (get (getRelated (bound OneToOne) model)) = Resolved related
              /\ fst (get (getRelated (bound OneToMany) model)) = Resolved related)).
Proof.
  intros model. split.
  - intros this. repeat split.
  - intros target foreign local database records bound. split; [reflexivity |].
    intros Hreq Hkey related.
    assert (Hget : fst (get (getRelated (bound OneToOne) model)) = Resolved related).
    { rewrite (get_delivers (getRelated (bound OneToOne) model) database records
                 related eq_refl Hreq).
      - now rewrite deliver_no_directive.
      - cbn [getRelated kind bound OneToOne_getRelated call_where fst where_
             queries super setDb new_Entity app foreignKey localKey
             apply_queries].
        rewrite (filterM_total _
                   (fun record => strict_equals (get_prop record foreign)
                                                (get_prop model local))).
        + reflexivity.
        + intros record _. now apply matches_literal. }
    split; exact Hget.
Qed.

End Properties.

(** * The properties on the stores of the test suite *)

(** The expectations of the test suite, on the stores it fills. *)

Example test_find_by_id : fst (find (Num 1) db_users) = Resolved (Some Alice).
Proof. reflexivity. Qed.

Example test_get_all : fst (get db_users) = Resolved users_store.
Proof. reflexivity. Qed.

Example test_gt :
  fst (get (where_ (clause "age" "$gt" (VNum (Num 30))) db_users))
  = Resolved [Charlie].
Proof. reflexivity. Qed.

Example test_gte :
  fst (get (where_ (clause "age" "$gte" (VNum (Num 30))) db_users))
  = Resolved [Alice; Charlie].
Proof. reflexivity. Qed.

Example test_lt :
  fst (get (where_ (clause "age" "$lt" (VNum (Num 30))) db_users))
  = Resolved [Bob; David].
Proof. reflexivity. Qed.

Example test_lte :
  fst (get (where_ (clause "age" "$lte" (VNum (Num 25))) db_users))
  = Resolved [Bob; David].
Proof. reflexivity. Qed.

Example test_eq :
  fst (get (where_ (clause "age" "$eq" (VNum (Num 25))) db_users))
  = Resolved [Bob; David].
Proof. reflexivity. Qed.

Example test_ne :
  fst (get (where_ (clause "age" "$ne" (VNum (Num 25))) db_users))
  = Resolved [Alice; Charlie].
Proof. reflexivity. Qed.

Example test_in :
  fst (get (where_ (clause "age" "$in" (VArr [VNum (Num 25); VNum (Num 35)]))
              db_users))
  = Resolved [Bob; Charlie; David].
Proof. reflexivity. Qed.

Example test_nin :
  fst (get (where_ (clause "age" "$nin" (VArr [VNum (Num 25); VNum (Num 35)]))
              db_users))
  = Resolved [Alice].
Proof. reflexivity. Qed.

Example test_startsWith :
  fst (get (where_ (clause "name" "$startsWith" (VStr "A")) db_users))
  = Resolved [Alice].
Proof. reflexivity. Qed.

Example test_endsWith :
  fst (get (where_ (clause "name" "$endsWith" (VStr "e")) db_users))
  = Resolved [Alice; Charlie].
Proof. reflexivity. Qed.

Example test_contains :
  fst (get (where_ (clause "name" "$contains" (VStr "li")) db_users))
  = Resolved [Alice; Charlie].
Proof. reflexivity. Qed.

Example test_limit : fst (get (limit (Num 2) db_users)) = Resolved [Alice; Bob].
Proof. reflexivity. Qed.

Example test_skip : fst (get (skip (Num 2) db_users)) = Resolved [Charlie; David].
Proof. reflexivity. Qed.

Example test_skip_and_limit :
  fst (get (limit (Num 2) (skip (Num 1) db_users))) = Resolved [Bob; Charlie].
Proof. reflexivity. Qed.

Example test_load_one_to_many :
  fst (find (Num 1) (with_ [("posts", [])] db_users))
  = Resolved
      (Some (Alice ++ [("posts",
                        VArr [VObj (post 1 "Post 1 by Alice" 1);
                              VObj (post 2 "Post 2 by Alice" 1)])])).
Proof. reflexivity. Qed.

(** C1 as the specification words it fails: a numeric [name] passes
    [{ name: { $startsWith: "A" } }]. *)
Lemma string_operator_on_number_matches :
  ~ (forall (item : object) (key operator : string) (operand : value),
        string_operator operator ->
        is_string (get_prop item key) = false \/ is_string operand = false ->
        matches item [(key, VObj [(operator, operand)])] = Returns false).
Proof.
  intros Hclaim.
  specialize (Hclaim [("name", VNum (Num 5))] "name" "$startsWith" (VStr "A")
                (or_introl eq_refl) (or_introl eq_refl)).
  vm_compute in Hclaim. discriminate Hclaim.
Qed.

Lemma string_operator_skipped_on_non_string_witness :
  let item := [("id", VNum (Num 7)); ("name", VNum (Num 5))] in
  string_operator "$startsWith"
  /\ (is_string (get_prop item "name") = false \/ is_string (VStr "A") = false)
  /\ (matches item
        [("name", VObj [("$ne", VNull); ("$startsWith", VStr "A")]);
         ("id", VNum (Num 7))]
      = matches item [("name", VObj [("$ne", VNull)]); ("id", VNum (Num 7))]
      /\ matches item [("name", VObj [("$startsWith", VStr "A")])] = Returns true).
Proof.
  intros item.
  assert (Hop : string_operator "$startsWith") by (left; reflexivity).
  assert (Hty : is_string (get_prop item "name") = false
                \/ is_string (VStr "A") = false) by (left; reflexivity).
  split; [exact Hop | split; [exact Hty |]].
  exact (string_operator_skipped_on_non_string item "name" "$startsWith"
           (VStr "A") [("$ne", VNull)] [] [] [("id", VNum (Num 7))] Hop Hty).
Defined.

(** C4 as the specification words it fails at a limit of 0: after
    [skip(1).limit(0)] on the four users [get] resolves with the last three,
    not with the first 0 of them. *)
Lemma limit_zero_takes_all :
  ~ (forall (this : Entity) (database : IDBDatabase) (result : list object)
            (N M : nat),
        db this = Some database ->
        store_getAll database (storeName this) = Succeeds result ->
        evaluable (queries this) result ->
        let this' := limit (Num (Z.of_nat M)) (skip (Num (Z.of_nat N)) this) in
        get this'
        = deliver this'
            (firstn M (skipn N
               (filter (fun item => forallb (holds item) (queries this)) result)))).
Proof.
  intros Hclaim.
  assert (Hev : evaluable (queries db_users) users_store) by (intros ? ? []).
  specialize (Hclaim db_users test_db users_store 1%nat 0%nat eq_refl eq_refl Hev).
  vm_compute in Hclaim. discriminate Hclaim.
Qed.

Lemma younger_than_35_evaluable : evaluable [younger_than_35] users_store.
Proof.
  intros query item [<- | []] Hitem.
  repeat (destruct Hitem as [<- | Hitem]; [eexists; reflexivity |]).
  destruct Hitem.
Defined.

Lemma get_filters_then_skips_then_limits_witness :
  let this := where_ younger_than_35 db_users in
  let this' := limit (Num 2) (skip (Num 1) this) in
  db this = Some test_db
  /\ store_getAll test_db (storeName this) = Succeeds users_store
  /\ evaluable (queries this) users_store
  /\ (0 < 2)%nat
  /\ get this'
     = deliver this'
         (firstn 2 (skipn 1
            (filter (fun item => forallb (holds item) (queries this)) users_store)))
  /\ fst (get this') = Resolved [Bob; David].
Proof.
  intros this this'.
  assert (Hpos : (0 < 2)%nat) by (apply Nat.lt_0_succ).
  split; [reflexivity |].
  split; [reflexivity |].
  split; [exact younger_than_35_evaluable |].
  split; [exact Hpos |].
  split; [| reflexivity].
  exact (proj1 get_filters_then_skips_then_limits this test_db users_store
           1%nat 2%nat eq_refl eq_refl younger_than_35_evaluable Hpos).
Defined.


Lemma negative_bounds_count_from_the_end_witness :
  let this := where_ younger_than_35 db_users in
  (-1 < 0)%Z
  /\ db this = Some test_db
  /\ store_getAll test_db (storeName this) = Succeeds users_store
  /\ evaluable (queries this) users_store
  /\ withs this = []
  /\ offset this = None
  /\ take this = None
  /\ fst (get (limit (Num (-1)) this)) = Resolved [Alice; Bob]
  /\ fst (get (skip (Num (-1)) this)) = Resolved [David]
  /\ get (skip (Num (-2)) (limit (Num (-1)) this))
     = (Resolved [Bob], clear this).
Proof.
  intros this.
  assert (Hneg : (-1 < 0)%Z) by reflexivity.
  assert (Hneg' : (-2 < 0)%Z) by reflexivity.
  pose proof (negative_bounds_count_from_the_end this (-1) test_db
                users_store Hneg eq_refl eq_refl younger_than_35_evaluable)
    as [_ [Hlimit [Hskip _]]].
  pose proof (negative_bounds_count_from_the_end (limit (Num (-1)) this) (-2)
                test_db users_store Hneg' eq_refl eq_refl
                younger_than_35_evaluable)
    as [Hboth _].
  split; [exact Hneg |].
  split; [reflexivity |].
  split; [reflexivity |].
  split; [exact younger_than_35_evaluable |].
  split; [reflexivity |].
  split; [reflexivity |].
  split; [reflexivity |].
  split; [exact (Hlimit eq_refl eq_refl) |].
  split; [exact (Hskip eq_refl eq_refl) |].
  exact (proj2 (Hboth eq_refl)).
Defined.



(** C6, evaluated where the store call itself throws.  With a clause, a
    limit and a skip accumulated, [find] on a closed connection rejects with
    the store's exception and leaves all three in the builder, where the
    claim has them cleared: once the connection is back, the next [get] is
    still filtered, offset and capped.  On the open connection the same
    [find], for a key without a record, resolves with [undefined] and clears
    them, and the next [get] resolves with the whole store. *)
Theorem find_on_closed_connection_keeps_builder_state :
  let accumulated (database : IDBDatabase) :=
    skip (Num 1)
      (limit (Num 1)
         (where_ younger_than_35
            (setDb (Some database) (new_Entity "users" (Some User))))) in
  let this := accumulated closed_db in
  find (Num 9) this = (Rejected (DOMException "InvalidStateError"), this)
  /\ queries (snd (find (Num 9) this)) = [younger_than_35]
  /\ take (snd (find (Num 9) this)) = Some (Num 1)
  /\ offset (snd (find (Num 9) this)) = Some (Num 1)
  /\ fst (get (setDb (Some test_db) (snd (find (Num 9) this)))) = Resolved [Bob]
  /\ find (Num 9) (accumulated test_db)
     = (Resolved None, clear (accumulated test_db))
  /\ fst (get (snd (find (Num 9) (accumulated test_db)))) = Resolved users_store.
Proof. cbn zeta. repeat split; vm_compute; reflexivity. Qed.

Lemma one_to_one_and_one_to_many_resolve_alike_witness :
  let bound k :=
    {| super := setDb (Some test_db) (new_Entity "posts" None);
       kind := k; foreignKey := "userId"; localKey := "id" |} in
  store_getAll test_db "posts" = Succeeds posts_store
  /\ (forall props, get_prop Alice "id" <> VObj props)
  /\ fst (get (getRelated (bound OneToOne) Alice))
     = Resolved [post 1 "Post 1 by Alice" 1; post 2 "Post 2 by Alice" 1]
  /\ fst (get (getRelated (bound OneToMany) Alice))
     = Resolved [post 1 "Post 1 by Alice" 1; post 2 "Post 2 by Alice" 1].
Proof.
  intros bound.
  assert (Hkey : forall props, get_prop Alice "id" <> VObj props)
    by (intros props; discriminate).
  split; [reflexivity | split; [exact Hkey |]].
  exact (proj2 (proj2 (one_to_one_and_one_to_many_resolve_alike Alice)
                  "posts" "userId" "id" test_db posts_store)
           eq_refl Hkey).
Defined.

(** ** The coercions on plain data, at work *)

(** A string facing a number compares as the number it spells, between
    white space and in any of the literal forms; a string that spells no
    number compares with nothing. *)
Example numeric_string_compares_as_its_number :
  matches [("n", VStr "5")] (clause "n" "$lt" (VNum (Num 9))) = Returns true
  /\ matches [("n", VStr "5")] (clause "n" "$gte" (VNum (Num 9))) = Returns false
  /\ IsLessThan (VStr " 0x10 ") (VNum (Num 17)) = Some true
  /\ IsLessThan (VNum (Num 999)) (VStr "1e3") = Some true
  /\ IsLessThan (VStr "-Infinity") (VNum (Num 0)) = Some true
  /\ IsLessThan (VStr "9007199254740993") (VNum (Num 9007199254740994))
     = Some true
  /\ IsLessThan (VStr EmptyString) (VNum (Num 1)) = Some true
  /\ IsLessThan (VArr [VNum (Num 5)]) (VNum (Num 9)) = Some true
  /\ IsLessThan (VStr "five") (VNum (Num 9)) = None
  /\ IsLessThan (VStr "10") (VStr "9") = Some true.
Proof. repeat split; vm_compute; reflexivity. Qed.

(** An integer is written with all its digits below [2 ^ 53], with the
    shortest digits that read back as the same double from there on, and in
    exponent form from [10 ^ 21] on. *)
Example number_written_as_the_language_does :
  ToString (VNum (Num (-25))) = "-25"
  /\ ToString (VNum (Num (2 ^ 53))) = "9007199254740992"
  /\ ToString (VNum (Num (2 ^ 64))) = "18446744073709552000"
  /\ ToString (VNum (Num (10 ^ 21))) = "1e+21"
  /\ ToString (VNum (Num (- 2 ^ 70))) = "-1.1805916207174113e+21"
  /\ ToString (VArr [VNum (Num 1); VNull; VStr "a"]) = "1,,a".
Proof. repeat split; vm_compute; reflexivity. Qed.

(** * Further properties *)

(** ** Strings *)

Lemma startsWith_iff (s search : string) :
  startsWith s search = true <-> exists rest, s = (search ++ rest)%string.
Proof.
  unfold startsWith. revert s.
  induction search as [| c search IH]; intros s.
  - split; [intros _; now exists s | intros _; now destruct s].
  - destruct s as [| d s]; cbn.
    + split; [discriminate | intros [rest Hrest]; discriminate].
    + destruct (Ascii.ascii_dec c d) as [-> | Hne].
      * rewrite IH. split; intros [rest Hrest]; exists rest; congruence.
      * split; [discriminate | intros [rest Hrest]; congruence].
Qed.

Lemma substring_append_right (front back : string) :
  String.substring (String.length front) (String.length back) (front ++ back)
  = back.
Proof.
  induction front as [| c front IH]; cbn.
  - induction back as [| d back IHb]; cbn; [reflexivity | now rewrite IHb].
  - exact IH.
Qed.

Lemma length_append (a b : string) :
  String.length (a ++ b) = (String.length a + String.length b)%nat.
Proof. induction a as [| c a IH]; cbn; [reflexivity | now rewrite IH]. Qed.

Lemma split_at (n : nat) (s : string) :
  (n <= String.length s)%nat ->
  s = (String.substring 0 n s
       ++ String.substring n (String.length s - n) s)%string.
Proof.
  revert s. induction n as [| n IH]; intros s Hn.
  - cbn. rewrite Nat.sub_0_r. clear Hn.
    destruct s as [| c s]; [reflexivity |]. cbn. f_equal.
    induction s as [| d s IHs]; cbn; [reflexivity | now rewrite <- IHs].
  - destruct s as [| c s]; [cbn in Hn; lia |].
    cbn. f_equal. apply IH. cbn in Hn. lia.
Qed.

Lemma endsWith_iff (s search : string) :
  endsWith s search = true <-> exists front, s = (front ++ search)%string.
Proof.
  unfold endsWith. split.
  - intros Hends. apply andb_true_iff in Hends as [Hle Heq].
    apply Nat.leb_le in Hle. apply String.eqb_eq in Heq.
    exists (String.substring 0 (String.length s - String.length search) s).
    pose proof (split_at (String.length s - String.length search) s) as Hs.
    replace (String.length s - (String.length s - String.length search))%nat
      with (String.length search) in Hs by lia.
    rewrite Heq in Hs. apply Hs. lia.
  - intros [front ->]. rewrite length_append.
    replace (String.length front + String.length search - String.length search)%nat
      with (String.length front) by lia.
    rewrite substring_append_right, String.eqb_refl, andb_true_r.
    apply Nat.leb_le. lia.
Qed.

Lemma string_includes_iff (s search : string) :
  string_includes s search = true
  <-> exists front back, s = (front ++ search ++ back)%string.
Proof.
  induction s as [| c s IH]; cbn [string_includes].
  - rewrite orb_false_r. fold (startsWith EmptyString search).
    rewrite startsWith_iff. split.
    + intros [rest Hrest]. now exists EmptyString, rest.
    + intros [front [back Hs]]. destruct front; [now exists back | discriminate].
  - rewrite orb_true_iff. fold (startsWith (String c s) search).
    rewrite startsWith_iff, IH. split.
    + intros [[rest Hrest] | [front [back Hs]]].
      * now exists EmptyString, rest.
      * exists (String c front), back. cbn. now rewrite Hs.
    + intros [front [back Hs]]. destruct front as [| d front].
      * left. now exists back.
      * right. exists front, back. cbn in Hs. congruence.
Qed.

Section Further.
Context `{Coercions}.

(** ** More on the predicate evaluator *)

Lemma matches_clause (item : object) (field operator : string) (operand : value) :
  matches item (clause field operator operand)
  = switch_operator operator (get_prop item field) operand.
Proof.
  unfold clause. cbn [matches typeof is_null isArray own_props String.eqb
                      Ascii.eqb Bool.eqb andb negb match_operators].
  now destruct (switch_operator operator (get_prop item field) operand) as [[|] | e].
Qed.

Lemma matches_app (item : object) (q1 q2 : object) :
  matches item (q1 ++ q2)
  = (go_on <- matches item q1 ;; if go_on then matches item q2 else Returns false).
Proof.
  induction q1 as [| [key queryValue] q1 IH]; cbn [app matches bind].
  - now destruct (matches item q2) as [[|] | e].
  - match goal with |- bind ?c _ = _ => destruct c as [[|] | e] end;
      cbn [bind]; [exact IH | reflexivity | reflexivity].
Qed.

Lemma match_operators_app (itemValue : value) (o1 o2 : object) :
  match_operators itemValue (o1 ++ o2)
  = (go_on <- match_operators itemValue o1 ;;
     if go_on then match_operators itemValue o2 else Returns false).
Proof.
  induction o1 as [| [operator operand] o1 IH]; cbn [app match_operators bind].
  - now destruct (match_operators itemValue o2) as [[|] | e].
  - destruct (switch_operator operator itemValue operand) as [[|] | e];
      cbn [bind]; [exact IH | reflexivity | reflexivity].
Qed.

Lemma matches_operator_map (item : object) (field : string) (ops : object) :
  matches item [(field, VObj ops)] = match_operators (get_prop item field) ops.
Proof.
  cbn [matches typeof is_null isArray own_props String.eqb Ascii.eqb Bool.eqb
       andb negb].
  now destruct (match_operators (get_prop item field) ops) as [[|] | e].
Qed.

(** X1.  A literal in a clause, anything but an operator map, is compared
    with [===]: the clause is the [$eq] clause on the same value, and a
    literal array matches no record. *)
Theorem literal_clause_is_strict_equality :
  forall (item : object) (field : string) (literal : value),
    (forall props, literal <> VObj props) ->
    matches item [(field, literal)]
    = Returns (strict_equals (get_prop item field) literal)
    /\ matches item [(field, literal)] = matches item (clause field "$eq" literal)
    /\ (forall items, literal = VArr items ->
        matches item [(field, literal)] = Returns false).
Proof.
  intros item field literal Hlit.
  pose proof (matches_literal item field literal Hlit) as Heq.
  split; [exact Heq | split].
  - rewrite Heq, matches_clause. unfold switch_operator, return_false_if.
    cbn [String.eqb Ascii.eqb Bool.eqb]. now rewrite negb_involutive.
  - intros items ->. rewrite Heq. now destruct (get_prop item field).
Qed.

Lemma switch_unknown_operator (operator : string) (itemValue operand : value) :
  ~ In operator operators ->
  switch_operator operator itemValue operand = Returns false.
Proof.
  intros Hunknown. unfold switch_operator.
  repeat match goal with
         | |- context [String.eqb operator ?known] =>
             destruct (String.eqb_spec operator known) as [-> | _];
             [exfalso; apply Hunknown; cbn; tauto |]
         end.
  reflexivity.
Qed.

Lemma match_operators_unknown (itemValue : value) (ops : object)
      (operator : string) (operand : value) :
  In (operator, operand) ops -> ~ In operator operators ->
  match_operators itemValue ops <> Returns true.
Proof.
  intros Hin Hunknown. induction ops as [| [op v] ops IH]; [destruct Hin |].
  cbn [match_operators]. destruct Hin as [[= -> ->] | Hin].
  - now rewrite switch_unknown_operator.
  - destruct (switch_operator op itemValue v) as [[|] | e]; cbn [bind];
      [now apply IH | discriminate | discriminate].
Qed.

(** X2.  A clause with an operator [matches] does not know never matches,
    whatever else the query holds. *)
Theorem unknown_operator_never_matches :
  forall (item query : object) (field operator : string) (ops : object)
         (operand : value),
    In (field, VObj ops) query ->
    In (operator, operand) ops ->
    ~ In operator operators ->
    matches item query <> Returns true.
Proof.
  intros item query field operator ops operand Hclause Hop Hunknown.
  induction query as [| [key queryValue] query IH]; [destruct Hclause |].
  destruct Hclause as [[= -> ->] | Hclause].
  - change ((field, VObj ops) :: query) with ([(field, VObj ops)] ++ query).
    rewrite matches_app, matches_operator_map.
    pose proof (match_operators_unknown (get_prop item field) ops operator
                  operand Hop Hunknown) as Hnot.
    destruct (match_operators (get_prop item field) ops) as [[|] | e];
      cbn [bind]; [now destruct Hnot | discriminate | discriminate].
  - change ((key, queryValue) :: query) with ([(key, queryValue)] ++ query).
    rewrite matches_app.
    destruct (matches item [(key, queryValue)]) as [[|] | e]; cbn [bind];
      [now apply IH | discriminate | discriminate].
Qed.

(** X3.  Where the language compares two integers by value, the ordering
    operators on an integer field are the four comparisons, exclusive and
    inclusive as named, and an operator map with two bounds is the range. *)
Theorem ordering_operators_on_integers :
  forall (item : object) (field : string) (a : Z),
    (forall x y : Z, IsLessThan (VNum (Num x)) (VNum (Num y)) = Some (x <? y)%Z) ->
    get_prop item field = VNum (Num a) ->
    forall b : Z,
      matches item (clause field "$gt" (VNum (Num b))) = Returns (b <? a)%Z
      /\ matches item (clause field "$gte" (VNum (Num b))) = Returns (b <=? a)%Z
      /\ matches item (clause field "$lt" (VNum (Num b))) = Returns (a <? b)%Z
      /\ matches item (clause field "$lte" (VNum (Num b))) = Returns (a <=? b)%Z
      /\ (forall c : Z,
            matches item [(field, VObj [("$gte", VNum (Num b));
                                        ("$lte", VNum (Num c))])]
            = Returns ((b <=? a)%Z && (a <=? c)%Z)).
Proof.
  intros item field a Hint Hfield b.
  assert (Hle : forall x y : Z, negb (y <? x)%Z = (x <=? y)%Z)
    by (intros x y; now rewrite Z.ltb_antisym, negb_involutive).
  rewrite !matches_clause, Hfield.
  unfold switch_operator, return_false_if, js_le, js_lt, js_ge, js_gt.
  cbn [String.eqb Ascii.eqb Bool.eqb]. rewrite !Hint, !negb_involutive, !Hle.
  repeat split.
  intros c. rewrite matches_operator_map, Hfield.
  cbn [match_operators]. unfold switch_operator, return_false_if, js_lt, js_gt.
  cbn [String.eqb Ascii.eqb Bool.eqb bind]. rewrite !Hint, !Hle.
  now destruct (b <=? a)%Z, (a <=? c)%Z.
Qed.

(** X4.  When the language can order the field value and the operand in
    neither direction, as for a field the record lacks, all four ordering
    operators let the record pass. *)
Theorem ordering_operators_pass_the_incomparable :
  forall (item : object) (field : string) (operand : value),
    IsLessThan (get_prop item field) operand = None ->
    IsLessThan operand (get_prop item field) = None ->
    forall operator,
      In operator ["$gt"; "$gte"; "$lt"; "$lte"] ->
      matches item (clause field operator operand) = Returns true.
Proof.
  intros item field operand Hlt Hgt operator Hop.
  rewrite matches_clause.
  cbn [In] in Hop. destruct Hop as [<- | [<- | [<- | [<- | []]]]];
    unfold switch_operator, return_false_if, js_le, js_lt, js_ge, js_gt;
    cbn [String.eqb Ascii.eqb Bool.eqb]; now rewrite ?Hlt, ?Hgt.
Qed.

(** X5.  On a string field and a string operand, [$startsWith], [$endsWith]
    and [$contains] match exactly when the operand is a prefix, a suffix, a
    substring of the field value, character for character. *)
Theorem string_operators_on_strings :
  forall (item : object) (field : string) (s search : string),
    get_prop item field = VStr s ->
    (matches item (clause field "$startsWith" (VStr search)) = Returns true
     <-> exists rest, s = (search ++ rest)%string)
    /\ (matches item (clause field "$endsWith" (VStr search)) = Returns true
        <-> exists front, s = (front ++ search)%string)
    /\ (matches item (clause field "$contains" (VStr search)) = Returns true
        <-> exists front back, s = (front ++ search ++ back)%string)
    /\ (forall operator, string_operator operator ->
          exists verdict,
            matches item (clause field operator (VStr search)) = Returns verdict).
Proof.
  intros item field s search Hfield.
  rewrite !matches_clause, Hfield.
  unfold switch_operator, return_false_if.
  cbn [String.eqb Ascii.eqb Bool.eqb is_string typeof andb call_startsWith
       call_endsWith call_includes].
  rewrite !negb_involutive.
  rewrite <- startsWith_iff, <- endsWith_iff, <- string_includes_iff.
  repeat split; try congruence.
  intros operator [-> | [-> | ->]]; rewrite matches_clause, Hfield;
    unfold switch_operator, return_false_if;
    cbn [String.eqb Ascii.eqb Bool.eqb]; eexists; reflexivity.
Qed.

(** X6.  The fields of a clause and the operators of an operator map are
    conjoined: put together, two of them match exactly when each does. *)
Theorem clauses_and_operators_conjoin :
  forall (item : object),
    (forall q1 q2 : object,
        matches item (q1 ++ q2) = Returns true
        <-> matches item q1 = Returns true /\ matches item q2 = Returns true)
    /\ (forall (field : string) (o1 o2 : object),
          matches item [(field, VObj (o1 ++ o2))] = Returns true
          <-> matches item [(field, VObj o1)] = Returns true
              /\ matches item [(field, VObj o2)] = Returns true).
Proof.
  intros item. split.
  - intros q1 q2. rewrite matches_app.
    destruct (matches item q1) as [[|] | e]; cbn [bind]; split;
      try (intros [? ?]); try discriminate; auto.
  - intros field o1 o2. rewrite !matches_operator_map, match_operators_app.
    destruct (match_operators (get_prop item field) o1) as [[|] | e];
      cbn [bind]; split; try (intros [? ?]); try discriminate; auto.
Qed.

Lemma operand_without_includes (this : Entity) (database : IDBDatabase)
      (item : object) (rest : list object) (field operator : string)
      (operand : value) :
    operator = "$in" \/ operator = "$nin" ->
    isArray operand = false ->
    is_string operand = false ->
    db this = Some database ->
    store_getAll database (storeName this) = Succeeds (item :: rest) ->
    queries this = [clause field operator operand] ->
    exists msg, get this = (Unsettled (TypeError msg), this).
Proof.
  intros Hop Harr Hstr Hdb Hreq Hq.
  assert (Hthrow : exists msg,
             matches item (clause field operator operand) = Throws (TypeError msg)).
  { rewrite matches_clause.
    destruct Hop as [-> | ->]; unfold switch_operator;
      cbn [String.eqb Ascii.eqb Bool.eqb];
      destruct operand; try discriminate; cbn [includes bind];
      eexists; reflexivity. }
  destruct Hthrow as [msg Hthrow]. exists msg.
  apply (get_pending this database (item :: rest)); try assumption.
  rewrite Hq. cbn [apply_queries filterM]. now rewrite Hthrow.
Qed.

(** X7.  An [$in] or [$nin] operand that is neither an array nor a string
    has no [includes] to call: the [TypeError] ends the success handler, and
    [get] stays pending with the clause still in the builder. *)
Theorem malformed_in_operand_leaves_get_pending :
  forall (this : Entity) (database : IDBDatabase) (item : object)
         (rest : list object) (field operator : string) (operand : value),
    operator = "$in" \/ operator = "$nin" ->
    isArray operand = false ->
    is_string operand = false ->
    db this = Some database ->
    store_getAll database (storeName this) = Succeeds (item :: rest) ->
    queries this = [clause field operator operand] ->
    exists msg, get this = (Unsettled (TypeError msg), this).
Proof.
  intros this database item rest field operator operand.
  apply operand_without_includes.
Qed.

(** ** More on the executor *)

Lemma forEach_await_length {A B} (f : A -> promise B) (l : list A) (l' : list B) :
  forEach_await f l = Resolved l' -> List.length l' = List.length l.
Proof.
  revert l'. induction l as [| x rest IH]; intros l'; cbn [forEach_await].
  - now intros [= <-].
  - destruct (f x) as [y | e | e]; cbn [await]; try discriminate.
    destruct (forEach_await f rest) as [ys | e | e]; cbn [await];
      try discriminate.
    intros [= <-]. cbn. f_equal. now apply IH.
Qed.

Lemma forEach_await_resolved {A} (l : list A) :
  forEach_await (fun x => Resolved x) l = Resolved l.
Proof.
  induction l as [| x rest IH]; [reflexivity |].
  cbn [forEach_await await]. now rewrite IH.
Qed.

Lemma filterM_sound {A} (p : A -> completion bool) (l kept : list A) :
  filterM p l = Returns kept ->
  List.length kept <= List.length l
  /\ forall x, In x kept -> In x l /\ p x = Returns true.
Proof.
  revert kept. induction l as [| x rest IH]; intros kept; cbn [filterM].
  - intros [= <-]. split; [constructor | intros ? []].
  - destruct (p x) as [keep | e] eqn:Hp; cbn [bind]; [| discriminate].
    destruct (filterM p rest) as [kept' | e]; cbn [bind]; [| discriminate].
    destruct (IH kept' eq_refl) as [Hlen Hin].
    intros [= <-]. destruct keep; cbn [List.length In]; split; try lia.
    + intros y [<- | Hy]; [now split; [left |] |].
      destruct (Hin y Hy). now split; [right |].
    + intros y Hy. destruct (Hin y Hy). now split; [right |].
Qed.

Lemma apply_queries_sound (qs : list object) (l kept : list object) :
  apply_queries qs l = Returns kept ->
  List.length kept <= List.length l
  /\ forall item, In item kept ->
       In item l /\ forall q, In q qs -> matches item q = Returns true.
Proof.
  revert l. induction qs as [| q qs IH]; intros l; cbn [apply_queries].
  - intros [= <-]. split; [constructor |]. intros item Hitem. split; [exact Hitem |].
    intros ? [].
  - destruct (filterM (fun item => matches item q) l) as [kept' | e] eqn:Hf;
      cbn [bind]; [| discriminate].
    intros Hrest. destruct (filterM_sound _ _ _ Hf) as [Hlen' Hin'].
    destruct (IH kept' Hrest) as [Hlen Hin]. split; [lia |].
    intros item Hitem. destruct (Hin item Hitem) as [Hk Hqs].
    destruct (Hin' item Hk) as [Hl Hq]. split; [exact Hl |].
    intros q' [<- | Hq']; [exact Hq | now apply Hqs].
Qed.

Lemma in_firstn {A} (n : nat) (l : list A) (x : A) : In x (firstn n l) -> In x l.
Proof.
  intros Hx. rewrite <- (firstn_skipn n l). apply in_or_app. now left.
Qed.

Lemma in_skipn {A} (n : nat) (l : list A) (x : A) : In x (skipn n l) -> In x l.
Proof.
  intros Hx. rewrite <- (firstn_skipn n l). apply in_or_app. now right.
Qed.

Lemma slice_sound {A} (l : list A) (start : number) (end_ : option number) :
  List.length (slice l start end_) <= List.length l
  /\ forall x, In x (slice l start end_) -> In x l.
Proof.
  unfold slice. split.
  - rewrite length_firstn, length_skipn. lia.
  - intros x Hx. eapply in_skipn, in_firstn, Hx.
Qed.

Lemma page_sound (this : Entity) (l : list object) :
  List.length (apply_limit this (apply_skip this l)) <= List.length l
  /\ forall x, In x (apply_limit this (apply_skip this l)) -> In x l.
Proof.
  assert (Hskip : List.length (apply_skip this l) <= List.length l
                  /\ forall x, In x (apply_skip this l) -> In x l).
  { unfold apply_skip. destruct (offset this) as [n |]; [| now split].
    destruct (truthy (Some n)); [apply slice_sound | now split]. }
  assert (Hlimit : forall l',
             List.length (apply_limit this l') <= List.length l'
             /\ forall x, In x (apply_limit this l') -> In x l').
  { intros l'. unfold apply_limit. destruct (take this) as [n |]; [| now split].
    destruct (truthy (Some n)); [apply slice_sound | now split]. }
  destruct Hskip as [Hs1 Hs2]. destruct (Hlimit (apply_skip this l)) as [Hl1 Hl2].
  split; [lia | auto].
Qed.

(** What a [get] that resolved went through. *)
Lemma get_resolved_inv (this this' : Entity) (results : list object) :
  get this = (Resolved results, this') ->
  exists database result matching,
    db this = Some database
    /\ store_getAll database (storeName this) = Succeeds result
    /\ apply_queries (queries this) result = Returns matching
    /\ load_all loadRelations this (apply_limit this (apply_skip this matching))
       = Resolved results.
Proof.
  unfold get, get_over. destruct (db this) as [database |]; [| discriminate].
  destruct (store_getAll database (storeName this)) as [e | e | result] eqn:Hreq;
    try discriminate.
  unfold get_onsuccess.
  destruct (apply_queries (queries this) result) as [matching | e] eqn:Hq;
    cbn [lift await]; [| discriminate].
  destruct (load_all loadRelations this
              (apply_limit this (apply_skip this matching))) as [rs | e | e] eqn:Hl;
    cbn [settle]; try discriminate.
  intros [= <- _]. now exists database, result, matching.
Qed.

Lemma load_all_length (this : Entity) (page results : list object) :
  load_all loadRelations this page = Resolved results ->
  List.length results = List.length page.
Proof.
  unfold load_all. destruct (0 <? List.length (withs this))%nat.
  - apply forEach_await_length.
  - now intros [= <-].
Qed.

Lemma paginate_nat (this : Entity) (N M : nat) (l : list object) :
  (0 < M)%nat ->
  take this = Some (Num (Z.of_nat M)) ->
  offset this = Some (Num (Z.of_nat N)) ->
  apply_limit this (apply_skip this l) = firstn M (skipn N l).
Proof.
  intros HM Htake Hoffset. unfold apply_limit, apply_skip. rewrite Htake, Hoffset.
  replace (truthy (Some (Num (Z.of_nat M)))) with true
    by (cbn [truthy]; destruct (Z.eqb_spec (Z.of_nat M) 0); [lia | reflexivity]).
  rewrite slice_upto_nat. f_equal. destruct N as [| N]; [reflexivity |].
  replace (truthy (Some (Num (Z.of_nat (S N))))) with true
    by (cbn [truthy]; destruct (Z.eqb_spec (Z.of_nat (S N)) 0); [lia | reflexivity]).
  apply slice_from_nat.
Qed.

(** X8.  A [get] that resolves returns at most as many records as the
    store holds, and at most [M] under a positive limit [M], relations
    loaded or not. *)
Theorem get_returns_at_most_the_limit :
  forall (this this' : Entity) (results : list object),
    get this = (Resolved results, this') ->
    (forall database result,
        db this = Some database ->
        store_getAll database (storeName this) = Succeeds result ->
        List.length results <= List.length result)
    /\ (forall M : nat,
          (0 < M)%nat -> take this = Some (Num (Z.of_nat M)) ->
          List.length results <= M).
Proof.
  intros this this' results Hget.
  destruct (get_resolved_inv _ _ _ Hget)
    as [database [result [matching [Hdb [Hreq [Hq Hload]]]]]].
  apply load_all_length in Hload.
  destruct (apply_queries_sound _ _ _ Hq) as [Hlen _].
  destruct (page_sound this matching) as [Hpage _].
  split.
  - intros database' result' Hdb' Hreq'.
    assert (result' = result) by congruence. subst result'. lia.
  - intros M HM Htake. rewrite Hload. unfold apply_limit. rewrite Htake.
    replace (truthy (Some (Num (Z.of_nat M)))) with true
      by (cbn [truthy]; destruct (Z.eqb_spec (Z.of_nat M) 0); [lia | reflexivity]).
    rewrite slice_upto_nat, length_firstn. lia.
Qed.

(** X9.  Without a directive, every record [get] resolves with is a record
    of the store that every clause matches; without bounds either, these
    are all of them. *)
Theorem get_returns_the_matching_records :
  forall (this this' : Entity) (database : IDBDatabase)
         (result results : list object),
    db this = Some database ->
    store_getAll database (storeName this) = Succeeds result ->
    withs this = [] ->
    get this = (Resolved results, this') ->
    (forall item, In item results ->
        In item result
        /\ forall q, In q (queries this) -> matches item q = Returns true)
    /\ (take this = None -> offset this = None ->
        forall item,
          In item result ->
          (forall q, In q (queries this) -> matches item q = Returns true) ->
          In item results).
Proof.
  intros this this' database result results Hdb Hreq Hw Hget.
  destruct (get_resolved_inv _ _ _ Hget)
    as [database' [result' [matching [Hdb' [Hreq' [Hq Hload]]]]]].
  assert (database' = database) by congruence. subst database'.
  assert (result' = result) by congruence. subst result'.
  rewrite load_all_no_directive in Hload by exact Hw.
  injection Hload as <-.
  destruct (apply_queries_sound _ _ _ Hq) as [_ Hsound].
  destruct (page_sound this matching) as [_ Hpage].
  split.
  - intros item Hitem. apply Hsound, Hpage, Hitem.
  - intros Htake Hoffset item Hitem Hall.
    unfold apply_limit, apply_skip. rewrite Htake, Hoffset.
    clear - Hq Hitem Hall. revert result matching Hq Hitem.
    induction (queries this) as [| q qs IH]; intros result matching Hq Hitem.
    + cbn in Hq. now injection Hq as <-.
    + cbn [apply_queries] in Hq.
      destruct (filterM (fun item => matches item q) result) as [kept | e] eqn:Hf;
        cbn [bind] in Hq; [| discriminate].
      apply (IH (fun q' Hq' => Hall q' (or_intror Hq')) kept matching Hq).
      clear - Hf Hitem Hall. revert kept Hf.
      induction result as [| x rest IHr]; intros kept Hf; [destruct Hitem |].
      cbn [filterM] in Hf.
      destruct (matches x q) as [keep | e] eqn:Hx; cbn [bind] in Hf;
        [| discriminate].
      destruct (filterM (fun item => matches item q) rest) as [kept' | e];
        cbn [bind] in Hf; [| discriminate].
      injection Hf as <-. destruct Hitem as [<- | Hitem].
      * rewrite (Hall q (or_introl eq_refl)) in Hx. injection Hx as <-. now left.
      * specialize (IHr Hitem kept' eq_refl). destruct keep; [now right | exact IHr].
Qed.

Lemma get_by_filter (this : Entity) database result :
  db this = Some database ->
  store_getAll database (storeName this) = Succeeds result ->
  evaluable (queries this) result ->
  get this
  = deliver this
      (apply_limit this
         (apply_skip this
            (filter (fun item => forallb (holds item) (queries this)) result))).
Proof.
  intros Hdb Hreq Hev.
  exact (get_delivers this database result _ Hdb Hreq (apply_queries_filter _ _ Hev)).
Qed.

Lemma fst_deliver_reads (this this' : Entity) (page : list object) :
  db this = db this' -> withs this = withs this' ->
  modelClass this = modelClass this' ->
  fst (deliver this page) = fst (deliver this' page).
Proof.
  intros Hdb Hw Hmc. unfold deliver. rewrite (fst_settle _ this').
  now rewrite (load_all_reads this this').
Qed.

Lemma holds_app (item q1 q2 : object) :
  holds item (q1 ++ q2) = holds item q1 && holds item q2.
Proof.
  unfold holds. rewrite matches_app.
  now destruct (matches item q1) as [[|] | e].
Qed.

Lemma evaluable_app (qs qs' : list object) (result : list object) :
  evaluable (qs ++ qs') result <-> evaluable qs result /\ evaluable qs' result.
Proof.
  unfold evaluable. split.
  - intros Hev. split; intros q item Hq Hitem; apply Hev; try assumption;
      apply in_or_app; [now left | now right].
  - intros [Hev Hev'] q item Hq Hitem. apply in_app_or in Hq as [Hq | Hq]; auto.
Qed.

(** X10.  Where [matches] evaluates the clauses, two [where] calls filter
    the same in either order, and the same as one call with the two clauses
    put together. *)
Theorem where_calls_commute_and_merge :
  forall (this : Entity) (database : IDBDatabase) (result : list object)
         (q1 q2 : object),
    db this = Some database ->
    store_getAll database (storeName this) = Succeeds result ->
    evaluable (queries this ++ [q1; q2]) result ->
    fst (get (where_ q2 (where_ q1 this))) = fst (get (where_ q1 (where_ q2 this)))
    /\ fst (get (where_ q2 (where_ q1 this))) = fst (get (where_ (q1 ++ q2) this)).
Proof.
  intros this database result q1 q2 Hdb Hreq Hev.
  apply evaluable_app in Hev as [Hqs H12].
  assert (H1 : evaluable [q1] result)
    by (intros q item [<- | []] Hitem; apply H12; [now left | exact Hitem]).
  assert (H2 : evaluable [q2] result)
    by (intros q item [<- | []] Hitem; apply H12; [now right; left | exact Hitem]).
  assert (Hmerged : evaluable [q1 ++ q2] result).
  { intros q item [<- | []] Hitem. rewrite matches_app.
    destruct (H1 q1 item (or_introl eq_refl) Hitem) as [[|] ->]; cbn [bind];
      [apply (H2 q2 item (or_introl eq_refl) Hitem) | now exists false]. }
  rewrite (get_by_filter (where_ q2 (where_ q1 this)) database result Hdb Hreq)
    by (cbn [where_ queries]; rewrite !evaluable_app; auto).
  rewrite (get_by_filter (where_ q1 (where_ q2 this)) database result Hdb Hreq)
    by (cbn [where_ queries]; rewrite !evaluable_app; auto).
  rewrite (get_by_filter (where_ (q1 ++ q2) this) database result Hdb Hreq)
    by (cbn [where_ queries]; rewrite !evaluable_app; auto).
  cbn [where_ queries].
  rewrite (filter_ext _ (fun item => forallb (holds item) (queries this)
                                     && (holds item q1 && holds item q2))).
  2: { intros item. rewrite !forallb_app. cbn [forallb].
       now rewrite !andb_true_r, andb_assoc. }
  rewrite (filter_ext (fun item => forallb (holds item)
                                     ((queries this ++ [q2]) ++ [q1]))
             (fun item => forallb (holds item) (queries this)
                          && (holds item q1 && holds item q2))).
  2: { intros item. rewrite !forallb_app. cbn [forallb].
       rewrite !andb_true_r, <- andb_assoc. f_equal. apply andb_comm. }
  rewrite (filter_ext (fun item => forallb (holds item)
                                     (queries this ++ [q1 ++ q2]))
             (fun item => forallb (holds item) (queries this)
                          && (holds item q1 && holds item q2))).
  2: { intros item. rewrite forallb_app. cbn [forallb].
       now rewrite andb_true_r, holds_app. }
  split; apply fst_deliver_reads; reflexivity.
Qed.

Lemma firstn_add {A} (a b : nat) (l : list A) :
  firstn (a + b) l = firstn a l ++ firstn b (skipn a l).
Proof.
  revert l. induction a as [| a IH]; intros l; [reflexivity |].
  destruct l as [| x l]; cbn [Nat.add firstn skipn app].
  - now rewrite firstn_nil.
  - now rewrite IH.
Qed.

(** X11.  Without a directive, the page [skip(N).limit(M)] followed by the
    page [skip(N + M).limit(M)] is the page [skip(N).limit(M + M)]: pages
    neither overlap nor leave a gap. *)
Theorem consecutive_pages_are_contiguous :
  forall (this : Entity) (database : IDBDatabase) (result matching : list object)
         (N M : nat),
    db this = Some database ->
    store_getAll database (storeName this) = Succeeds result ->
    apply_queries (queries this) result = Returns matching ->
    withs this = [] ->
    (0 < M)%nat ->
    let page n m := limit (Num (Z.of_nat m)) (skip (Num (Z.of_nat n)) this) in
    exists first second both,
      fst (get (page N M)) = Resolved first
      /\ fst (get (page (N + M)%nat M)) = Resolved second
      /\ fst (get (page N (M + M)%nat)) = Resolved both
      /\ first ++ second = both.
Proof.
  intros this database result matching N M Hdb Hreq Hq Hw HM page.
  assert (Hpage : forall n m, (0 < m)%nat ->
             fst (get (page n m)) = Resolved (firstn m (skipn n matching))).
  { intros n m Hm.
    rewrite (get_delivers (page n m) database result matching Hdb Hreq Hq).
    rewrite deliver_no_directive by exact Hw.
    now rewrite (paginate_nat (page n m) n m). }
  exists (firstn M (skipn N matching)), (firstn M (skipn (N + M) matching)),
         (firstn (M + M) (skipn N matching)).
  rewrite !Hpage by lia. repeat split.
  rewrite firstn_add, skipn_skipn. do 3 f_equal. lia.
Qed.

(** X12.  The order in which [limit] and [skip] are called does not
    matter: [limit(M).skip(N)] configures the builder as
    [skip(N).limit(M)] does, and [get] drops the first [N] matching records
    before it takes [M]. *)
Theorem skip_applies_before_limit_in_either_order :
  forall (this : Entity) (database : IDBDatabase) (result matching : list object)
         (N M : nat),
    db this = Some database ->
    store_getAll database (storeName this) = Succeeds result ->
    apply_queries (queries this) result = Returns matching ->
    (0 < M)%nat ->
    let early := skip (Num (Z.of_nat N)) (limit (Num (Z.of_nat M)) this) in
    let late := limit (Num (Z.of_nat M)) (skip (Num (Z.of_nat N)) this) in
    early = late
    /\ get early = deliver early (firstn M (skipn N matching)).
Proof.
  intros this database result matching N M Hdb Hreq Hq HM early late.
  split; [reflexivity |].
  rewrite (get_delivers early database result matching Hdb Hreq Hq).
  now rewrite (paginate_nat early N M).
Qed.

(** X13.  When [get] resolves, or when its request reports an error through
    [onerror], the builder is left empty; the next [get], nothing
    configured in between, resolves with every record the store then
    returns. *)
Theorem settled_get_leaves_a_clean_builder :
  forall (this : Entity),
    (forall results this',
        get this = (Resolved results, this') ->
        this' = clear this)
    /\ (forall database e,
          db this = Some database ->
          store_getAll database (storeName this) = Fails e ->
          get this = (Rejected e, clear this))
    /\ (forall database result,
          db this = Some database ->
          store_getAll database (storeName this) = Succeeds result ->
          get (clear this) = (Resolved result, clear this)).
Proof.
  intros this. split; [| split].
  - intros results this'. apply get_resolved_clears.
  - intros database e. apply get_failed_request_clears.
  - intros database result. apply get_cleared_returns_all.
Qed.

(** X14.  Once the request has succeeded, [get] and [find] never reject:
    they resolve or stay pending; and a call that stays pending leaves the
    builder as it was configured. *)
Theorem after_a_successful_request_nothing_rejects :
  forall (this : Entity),
    (forall database result e,
        db this = Some database ->
        store_getAll database (storeName this) = Succeeds result ->
        fst (get this) <> Rejected e)
    /\ (forall database id found e,
          db this = Some database ->
          store_get database (storeName this) id = Succeeds found ->
          fst (find id this) <> Rejected e)
    /\ (forall e this', get this = (Unsettled e, this') -> this' = this)
    /\ (forall id e this', find id this = (Unsettled e, this') -> this' = this).
Proof.
  intros this. repeat split.
  - intros database result e Hdb Hreq. unfold get, get_over. rewrite Hdb, Hreq.
    now destruct (get_onsuccess loadRelations this result).
  - intros database id found e Hdb Hreq. unfold find, find_over. rewrite Hdb, Hreq.
    now destruct (find_onsuccess loadRelations this found).
  - intros e this'. unfold get, get_over.
    destruct (db this) as [database |]; [| discriminate].
    destruct (store_getAll database (storeName this)) as [e' | e' | result];
      try discriminate.
    destruct (get_onsuccess loadRelations this result); cbn [settle];
      try discriminate; now intros [= _ <-].
  - intros id e this'. unfold find, find_over.
    destruct (db this) as [database |]; [| discriminate].
    destruct (store_get database (storeName this) id) as [e' | e' | found];
      try discriminate.
    destruct (find_onsuccess loadRelations this found); cbn [settle];
      try discriminate; now intros [= _ <-].
Qed.

(** ** More on relations *)

Lemma get_prop_set_prop (o : object) (k k' : string) (v : value) :
  get_prop (set_prop o k v) k' = if String.eqb k k' then v else get_prop o k'.
Proof.
  induction o as [| [key w] o IH]; cbn [set_prop get_prop].
  - reflexivity.
  - destruct (String.eqb_spec key k) as [-> | Hne]; cbn [get_prop].
    + now destruct (String.eqb k k').
    + destruct (String.eqb_spec key k') as [-> | Hne'].
      * destruct (String.eqb_spec k k') as [-> | _]; [now destruct Hne | reflexivity].
      * exact IH.
Qed.

Lemma load_each_fields get (this : Entity) mc (ds : WithQuery) (model model' : object) :
  load_each get this mc ds model = Resolved model' ->
  (forall k, lookup ds k = None -> get_prop model' k = get_prop model k)
  /\ (forall k, lookup ds k <> None -> exists items, get_prop model' k = VArr items).
Proof.
  revert model. induction ds as [| [name builder] ds IH]; intros model;
    cbn [load_each].
  - intros [= <-]. split; [reflexivity | intros k Hk; now destruct Hk].
  - destruct (lift (relation mc name)) as [r | e | e]; cbn [await];
      try discriminate.
    match goal with |- await ?p _ = _ -> _ => destruct p as [rs | e | e] end;
      cbn [await]; try discriminate.
    intros Hrest. destruct (IH _ Hrest) as [Hkeep Hset]. split.
    + intros k Hk. cbn [lookup] in Hk.
      destruct (String.eqb_spec name k) as [-> | Hne]; [discriminate |].
      rewrite (Hkeep k Hk), get_prop_set_prop.
      destruct (String.eqb_spec name k); [contradiction | reflexivity].
    + intros k Hk. cbn [lookup] in Hk.
      destruct (lookup ds k) as [b |] eqn:Hds.
      * apply Hset. now rewrite Hds.
      * rewrite (Hkeep k Hds), get_prop_set_prop.
        destruct (String.eqb name k); [eexists; reflexivity | now destruct Hk].
Qed.

(** X15.  Relation loading changes only the fields the directive names:
    every other field of the record keeps its value, and after the loop has
    run each named field holds an array. *)
Theorem relation_loading_touches_only_named_fields :
  forall (this : Entity) (model model' : object),
    loadRelations this model = Resolved model' ->
    (forall field, lookup (withs this) field = None ->
        get_prop model' field = get_prop model field)
    /\ (forall declared field,
          modelClass this = Some declared -> declared <> [] ->
          lookup (withs this) field <> None ->
          exists items, get_prop model' field = VArr items).
Proof.
  intros this model model'. unfold loadRelations, loadRelations_over.
  destruct (modelClass this) as [mc |].
  - destruct mc as [| entry mc].
    + cbn. intros [= <-]. split; [reflexivity |].
      intros declared field [= <-] Hne. now destruct Hne.
    + cbn [relations map List.length Nat.eqb]. intros Hload.
      destruct (load_each_fields _ _ _ _ _ _ Hload) as [Hkeep Hset].
      split; [exact Hkeep | intros declared field _ _; apply Hset].
  - intros [= <-]. split; [reflexivity | discriminate].
Qed.

Lemma lookup_declared (modelClass : ModelClass) (name : string) (decl : RelationDecl) :
  lookup modelClass name = Some decl ->
  relation modelClass name = Returns (new_Relation decl).
Proof.
  intros Hdecl. unfold relation, relations.
  induction modelClass as [| [k d] rest IH]; [discriminate |].
  cbn [map lookup fst snd] in *.
  destruct (String.eqb k name); [now injection Hdecl as -> | now apply IH].
Qed.

Lemma load_single (this : Entity) (declared : ModelClass) (name : string)
      (decl : RelationDecl) (queryBuilder : list BuilderCall) (model : object) :
  modelClass this = Some declared ->
  lookup declared name = Some decl ->
  withs this = [(name, queryBuilder)] ->
  loadRelations this model
  = (related <~ fst (get (refine queryBuilder
                            (getRelated (bound_relation (db this) decl) model))) ;;
     Resolved (set_prop model name (VArr (map VObj related)))).
Proof.
  intros Hmc Hdecl Hw. unfold loadRelations, loadRelations_over. rewrite Hmc, Hw.
  destruct declared as [| entry declared]; [discriminate |].
  cbn [relations map List.length Nat.eqb].
  change ((fst entry, new_Relation (snd entry))
            :: map (fun e => (fst e, new_Relation (snd e))) declared)
    with (relations (entry :: declared)).
  cbn [load_each]. rewrite (lookup_declared _ _ _ Hdecl). cbn [lift await].
  rewrite <- get_without_modelClass
    by (rewrite refine_modelClass; unfold getRelated; cbn [kind new_Relation];
        now destruct (declKind decl)).
  reflexivity.
Qed.

Lemma get_related_by_key (query : Entity) database (records : list object)
      (foreign : string) (key : value) :
  db query = Some database ->
  store_getAll database (storeName query) = Succeeds records ->
  queries query = [[(foreign, key)]] ->
  (forall props, key <> VObj props) ->
  offset query = None -> withs query = [] ->
  fst (get query)
  = Resolved (apply_limit query
                (filter (fun record => strict_equals (get_prop record foreign) key)
                        records)).
Proof.
  intros Hdb Hreq Hq Hkey Ho Hw.
  rewrite (get_delivers query database records
             (filter (fun record => strict_equals (get_prop record foreign) key)
                     records) Hdb Hreq).
  - rewrite deliver_no_directive by exact Hw. unfold apply_skip. now rewrite Ho.
  - rewrite Hq. cbn [apply_queries].
    rewrite (filterM_total _ (fun record =>
                                strict_equals (get_prop record foreign) key));
      [reflexivity |].
    intros record _. now apply matches_literal.
Qed.

(** X16.  Loading a [OneToOne] or [OneToMany] relation with the refinement
    [q => q] puts under the relation's name the records of the target store
    whose foreign key is strictly equal to the record's local key value, in
    store order; with [q => q.limit(M)], the first [M] of them. *)
Theorem loaded_relation_holds_the_related_records :
  forall (this : Entity) (declared : ModelClass) (name : string)
         (decl : RelationDecl) (database : IDBDatabase) (records : list object)
         (model : object),
    modelClass this = Some declared ->
    lookup declared name = Some decl ->
    declKind decl <> ManyToMany ->
    db this = Some database ->
    store_getAll database (declStoreName decl) = Succeeds records ->
    (forall props, get_prop model (declLocalKey decl) <> VObj props) ->
    let related :=
      filter (fun record =>
                strict_equals (get_prop record (declForeignKey decl))
                              (get_prop model (declLocalKey decl))) records in
    loadRelations (with_ [(name, [])] this) model
    = Resolved (set_prop model name (VArr (map VObj related)))
    /\ (forall M : nat,
          (0 < M)%nat ->
          loadRelations (with_ [(name, [CallLimit (Num (Z.of_nat M))])] this) model
          = Resolved (set_prop model name (VArr (map VObj (firstn M related))))).
Proof.
  intros this declared name decl database records model Hmc Hdecl Hkind Hdb Hreq
         Hkey related.
  set (base := getRelated (bound_relation (Some database) decl) model).
  assert (Hbase : forall cap : Entity,
             db cap = Some database -> storeName cap = declStoreName decl ->
             queries cap = [[(declForeignKey decl, get_prop model (declLocalKey decl))]] ->
             offset cap = None -> withs cap = [] ->
             fst (get cap) = Resolved (apply_limit cap related)).
  { intros cap Hd Hs Hq Ho Hw.
    apply (get_related_by_key cap database records); try assumption.
    rewrite Hs. exact Hreq. }
  assert (Hshape : db base = Some database /\ storeName base = declStoreName decl
                   /\ queries base
                      = [[(declForeignKey decl, get_prop model (declLocalKey decl))]]
                   /\ offset base = None /\ withs base = [] /\ take base = None).
  { subst base. unfold getRelated, bound_relation. cbn [kind new_Relation].
    destruct (declKind decl); [| | now destruct Hkind]; repeat split. }
  destruct Hshape as [Hd [Hs [Hq [Ho [Hw Ht]]]]].
  split.
  - rewrite (load_single (with_ [(name, [])] this) declared name decl [] model
               Hmc Hdecl eq_refl).
    cbn [with_ db refine fold_left]. rewrite Hdb. fold base.
    rewrite (Hbase base Hd Hs Hq Ho Hw). cbn [await].
    unfold apply_limit. now rewrite Ht.
  - intros M HM.
    rewrite (load_single (with_ [(name, [CallLimit (Num (Z.of_nat M))])] this)
               declared name decl [CallLimit (Num (Z.of_nat M))] model
               Hmc Hdecl eq_refl).
    cbn [with_ db refine fold_left call]. rewrite Hdb. fold base.
    rewrite (Hbase (limit (Num (Z.of_nat M)) base) Hd Hs Hq Ho Hw). cbn [await].
    unfold apply_limit. cbn [limit take].
    replace (truthy (Some (Num (Z.of_nat M)))) with true
      by (cbn [truthy]; destruct (Z.eqb_spec (Z.of_nat M) 0); [lia | reflexivity]).
    now rewrite slice_upto_nat.
Qed.

Lemma Relation_get_ignores_directive (query : Entity) (directives : WithQuery) :
  fst (Relation_get (with_ directives query)) = fst (Relation_get query).
Proof.
  unfold Relation_get, get_over. cbn [with_ db storeName].
  destruct (db query) as [database |]; [| reflexivity].
  destruct (store_getAll database (storeName query)) as [e | e | result];
    try reflexivity.
  rewrite (fst_settle _ query). apply (f_equal fst). apply (f_equal (settle query)).
  unfold get_onsuccess. cbn [with_ queries].
  destruct (lift (apply_queries (queries query) result)) as [kept | e | e];
    cbn [await]; try reflexivity.
  unfold load_all.
  change (apply_limit (with_ directives query)
            (apply_skip (with_ directives query) kept))
    with (apply_limit query (apply_skip query kept)).
  rewrite !forEach_await_resolved.
  now destruct (0 <? List.length (withs (with_ directives query)))%nat,
               (0 <? List.length (withs query))%nat.
Qed.

(** X17.  A query without a model class, as every relation is, loads no
    relation of its own: a directive set on it changes nothing of what
    [get] settles to, so a [with] inside a refinement is without effect. *)
Theorem directive_on_a_relation_is_ignored :
  forall (query : Entity) (directives : WithQuery),
    modelClass query = None ->
    fst (get (with_ directives query)) = fst (get query)
    /\ (forall (queryBuilder : list BuilderCall),
          fst (get (refine (queryBuilder ++ [CallWith directives]) query))
          = fst (get (refine queryBuilder query))).
Proof.
  intros query directives Hmc.
  assert (Hwith : forall q, modelClass q = None ->
                   fst (get (with_ directives q)) = fst (get q)).
  { intros q Hq. rewrite !get_without_modelClass by exact Hq.
    apply Relation_get_ignores_directive. }
  split; [now apply Hwith |].
  intros queryBuilder. unfold refine. rewrite fold_left_app. cbn [fold_left call].
  apply Hwith. fold (refine queryBuilder query). now rewrite refine_modelClass.
Qed.

(** X18.  A [ManyToMany] relation resolves to the target records whose
    foreign key is among the values of the array the source record holds
    under the local key; when that value is neither an array nor a string
    and the target store is not empty, the related [get] stays pending on
    the [TypeError] of [includes]. *)
Theorem many_to_many_reads_the_key_array :
  forall (target foreign local : string) (database : IDBDatabase)
         (records : list object) (model : object),
    let related :=
      getRelated
        (bound_relation (Some database)
           {| declKind := ManyToMany; declStoreName := target;
              declForeignKey := foreign; declLocalKey := local |}) model in
    store_getAll database target = Succeeds records ->
    (forall ids,
        get_prop model local = VArr ids ->
        fst (get related)
        = Resolved
            (filter (fun record =>
                       existsb (same_value_zero (get_prop record foreign)) ids)
                    records))
    /\ (isArray (get_prop model local) = false ->
        is_string (get_prop model local) = false ->
        records <> [] ->
        exists msg, get related = (Unsettled (TypeError msg), related)).
Proof.
  intros target foreign local database records model related Hreq. split.
  - intros ids Hids.
    rewrite (get_delivers related database records
               (filter (fun record =>
                          existsb (same_value_zero (get_prop record foreign)) ids)
                       records) eq_refl Hreq).
    + now rewrite deliver_no_directive.
    + subst related. cbn [getRelated bound_relation kind new_Relation declKind
                          ManyToMany_getRelated call_where fst where_ queries
                          super setDb new_Entity app foreignKey localKey
                          declForeignKey declLocalKey apply_queries].
      rewrite Hids.
      rewrite (filterM_total _
                 (fun record =>
                    existsb (same_value_zero (get_prop record foreign)) ids));
        [reflexivity |].
      intros record _.
      change [(foreign, VObj [("$in", VArr ids)])]
        with (clause foreign "$in" (VArr ids)).
      rewrite matches_clause. unfold switch_operator, return_false_if.
      cbn [String.eqb Ascii.eqb Bool.eqb includes bind].
      now rewrite negb_involutive.
  - intros Harr Hstr Hrecords.
    destruct records as [| item rest]; [now destruct Hrecords |].
    apply (operand_without_includes related database item rest
             foreign "$in" (get_prop model local)); auto.
Qed.

Lemma set_prop_twice (o : object) (k : string) (v : value) :
  set_prop (set_prop o k v) k v = set_prop o k v.
Proof.
  induction o as [| [key w] o IH]; cbn [set_prop].
  - now rewrite String.eqb_refl.
  - destruct (String.eqb_spec key k) as [-> | Hne]; cbn [set_prop].
    + now rewrite String.eqb_refl.
    + destruct (String.eqb_spec key k); [contradiction | now rewrite IH].
Qed.

Lemma getRelated_reads_the_key (relation : Relation) (model model' : object) :
  get_prop model' (localKey relation) = get_prop model (localKey relation) ->
  getRelated relation model' = getRelated relation model.
Proof.
  intros Hkey. unfold getRelated, OneToOne_getRelated, OneToMany_getRelated,
    ManyToMany_getRelated. now rewrite Hkey.
Qed.

(** X19.  Loading a relation is idempotent on a record: when the relation
    is not named as its own local key, loading it again on the record it
    was loaded on resolves with that same record. *)
Theorem loading_a_relation_twice_changes_nothing :
  forall (this : Entity) (declared : ModelClass) (name : string)
         (decl : RelationDecl) (queryBuilder : list BuilderCall)
         (model model' : object),
    modelClass this = Some declared ->
    lookup declared name = Some decl ->
    withs this = [(name, queryBuilder)] ->
    name <> declLocalKey decl ->
    loadRelations this model = Resolved model' ->
    loadRelations this model' = Resolved model'.
Proof.
  intros this declared name decl queryBuilder model model' Hmc Hdecl Hw Hname.
  rewrite !(load_single this declared name decl queryBuilder) by assumption.
  destruct (fst (get (refine queryBuilder
                        (getRelated (bound_relation (db this) decl) model))))
    as [related | e | e] eqn:Hget; cbn [await]; try discriminate.
  intros [= <-].
  rewrite (getRelated_reads_the_key _ model).
  - rewrite Hget. cbn [await]. now rewrite set_prop_twice.
  - cbn [bound_relation localKey new_Relation]. rewrite get_prop_set_prop.
    destruct (String.eqb_spec name (declLocalKey decl)); [contradiction | reflexivity].
Qed.

End Further.

(** ** The database manager: properties *)

Lemma contains_createObjectStore (db : Connection) (name keyPath : string)
      (auto : bool) (other : string) :
  contains (createObjectStore name keyPath auto db) other
  = contains db other || String.eqb name other.
Proof.
  unfold contains, createObjectStore. cbn [objectStores].
  rewrite existsb_app. cbn [existsb osName]. now rewrite orb_false_r.
Qed.

Lemma createObjectStores_fold (this : Idb) (props : list (string * Property))
      (db : Connection) :
  incl props (properties this) ->
  let db' := fold_left store_step props db in
  (exists created,
      objectStores db' = objectStores db ++ created
      /\ Forall (entity_store this) created)
  /\ (forall name, contains db name = true -> contains db' name = true)
  /\ (forall name entity bound,
        In (name, EntityProperty entity bound) props ->
        contains db' (storeName entity) = true)
  /\ (NoDup (map osName (objectStores db)) ->
      NoDup (map osName (objectStores db')))
  /\ requests db' = requests db.
Proof.
  revert db. induction props as [| [pname prop] props IH]; intros db Hincl.
  - cbn. repeat split; auto; try (intros ? ? ? []).
    exists []. now rewrite app_nil_r.
  - cbn [fold_left].
    assert (Hincl' : incl props (properties this))
      by (intros x Hx; apply Hincl; now right).
    destruct (IH (store_step db (pname, prop)) Hincl')
      as [[created [Hstores Hcreated]] [Hkeep [Hall [Hnodup Hreq]]]].
    assert (Hstep :
              (exists added,
                  objectStores (store_step db (pname, prop))
                  = objectStores db ++ added
                  /\ Forall (entity_store this) added)
              /\ (forall name, contains db name = true ->
                              contains (store_step db (pname, prop)) name = true)
              /\ (forall entity bound, prop = EntityProperty entity bound ->
                    contains (store_step db (pname, prop)) (storeName entity) = true)
              /\ (NoDup (map osName (objectStores db)) ->
                  NoDup (map osName (objectStores (store_step db (pname, prop)))))
              /\ requests (store_step db (pname, prop)) = requests db).
    { unfold store_step. cbn [snd]. destruct prop as [entity bound | v].
      - destruct (contains db (storeName entity)) eqn:Hhas; cbn [negb].
        + repeat split; auto; try (intros entity' bound' [= <- _]; exact Hhas).
          exists []. now rewrite app_nil_r.
        + repeat split.
          * eexists. split; [reflexivity |]. constructor; [| constructor].
            repeat split. exists pname, entity, bound.
            split; [apply Hincl; now left | reflexivity].
          * intros name Hname. rewrite contains_createObjectStore, Hname.
            reflexivity.
          * intros entity' bound' [= <- _].
            rewrite contains_createObjectStore, String.eqb_refl.
            apply orb_true_r.
          * intros Hnd. cbn [createObjectStore objectStores].
            rewrite map_app. cbn [map osName].
            apply NoDup_app; [exact Hnd | repeat constructor; intros [] |].
            intros name Hin [<- | []].
            unfold contains in Hhas.
            apply in_map_iff in Hin as [store [Hname Hstore]].
            assert (existsb (fun s => String.eqb (osName s) (storeName entity))
                            (objectStores db) = true).
            { apply existsb_exists. exists store. split; [exact Hstore |].
              rewrite Hname. apply String.eqb_refl. }
            congruence.
      - repeat split; auto; try discriminate.
        exists []. now rewrite app_nil_r. }
    destruct Hstep as [[added [Hadded Hfor]] [Hkeep0 [Hown [Hnodup0 Hreq0]]]].
    repeat split.
    + exists (added ++ created). rewrite Hstores, Hadded, <- app_assoc.
      split; [reflexivity | now apply Forall_app].
    + auto.
    + intros name entity bound [[= _ Hprop] | Hin].
      * apply Hkeep. now apply (Hown entity bound).
      * now apply (Hall name entity bound).
    + auto.
    + congruence.
Qed.

Lemma createObjectStores_fixed (props : list (string * Property)) (db : Connection) :
  (forall name entity bound,
      In (name, EntityProperty entity bound) props ->
      contains db (storeName entity) = true) ->
  fold_left store_step props db = db.
Proof.
  induction props as [| [pname prop] props IH]; intros Hall; [reflexivity |].
  cbn [fold_left].
  assert (Hstep : store_step db (pname, prop) = db).
  { unfold store_step. cbn [snd]. destruct prop as [entity bound | v];
      [| reflexivity].
    now rewrite (Hall pname entity bound (or_introl eq_refl)). }
  rewrite Hstep. apply IH. intros name entity bound Hin.
  apply (Hall name entity bound). now right.
Qed.

(** X20.  [createObjectStores] adds, after the stores the connection has,
    one store keyed by ["id"] with generated keys for each entity whose
    store is missing, and nothing else: afterwards every entity has its
    store, no name is held twice, and a second run changes nothing. *)
Theorem createObjectStores_completes_the_stores :
  forall (this : Idb) (db : Connection),
    let db' := createObjectStores this db in
    (exists created,
        objectStores db' = objectStores db ++ created
        /\ Forall (entity_store this) created)
    /\ (forall name entity bound,
          In (name, EntityProperty entity bound) (properties this) ->
          contains db' (storeName entity) = true)
    /\ (NoDup (map osName (objectStores db)) ->
        NoDup (map osName (objectStores db')))
    /\ createObjectStores this db' = db'.
Proof.
  intros this db db'.
  destruct (createObjectStores_fold this (properties this) db (incl_refl _))
    as [Hcreated [_ [Hall [Hnodup _]]]].
  change (fold_left store_step (properties this) db) with db' in *.
  repeat split; try assumption.
  apply createObjectStores_fixed. exact Hall.
Qed.

Lemma lookup_map_snd {A B} (f : A -> B) (table : list (string * A)) (name : string) :
  lookup (map (fun entry => (fst entry, f (snd entry))) table) name
  = match lookup table name with Some a => Some (f a) | None => None end.
Proof.
  induction table as [| [k a] table IH]; [reflexivity |].
  cbn [map lookup fst snd]. now destruct (String.eqb k name).
Qed.

Lemma upgrades_keep_properties (upgrades : list Connection)
      (state : settlement) (this : Idb) :
  let after := fold_left on_open (map upgradeneeded upgrades) (state, this) in
  fst after = state /\ properties (snd after) = properties this
  /\ dbName (snd after) = dbName this.
Proof.
  revert this. induction upgrades as [| c upgrades IH]; intros this;
    [now cbn |].
  cbn [map fold_left on_open].
  destruct (IH (set_db (Some (createObjectStores this c)) this)) as [Hs [Hp Hn]].
  cbn zeta. now rewrite Hs, Hp, Hn.
Qed.

(** X21.  A [connect] whose request fires [success], after the upgrades if
    any, resolves; [getDb] then returns the connection of the event, and
    every entity of the manager sends its requests to that connection, its
    clauses, bounds and directive untouched. *)
Theorem connect_binds_every_entity :
  forall (this : Idb) (upgrades : list Connection) (result : Connection),
    let events := map upgradeneeded upgrades ++ [success result] in
    let this' := snd (connect (Returns events) this) in
    fst (connect (Returns events) this) = Fulfilled
    /\ getDb this' = Returns result
    /\ (forall name entity bound,
          lookup (properties this) name = Some (EntityProperty entity bound) ->
          entity_property this' name
          = Some (setDb (Some (requests result)) entity))
    /\ (forall name,
          entity_property this name = None -> entity_property this' name = None).
Proof.
  intros this upgrades result events this'.
  subst this' events. unfold connect. rewrite fold_left_app.
  destruct (upgrades_keep_properties upgrades StillPending this) as [Hs [Hp _]].
  cbn zeta in Hs, Hp.
  destruct (fold_left on_open (map upgradeneeded upgrades) (StillPending, this))
    as [state upgraded].
  cbn [fst snd] in Hs, Hp. subst state.
  cbn [fold_left on_open settle_with fst snd].
  split; [reflexivity | split; [reflexivity | split]].
  - intros name entity bound Hprop. unfold entity_property.
    cbn [initializeEntities properties set_db]. rewrite Hp.
    rewrite (lookup_map_snd
               (fun p => match p with
                         | EntityProperty entity _ => EntityProperty entity true
                         | OtherProperty v => OtherProperty v
                         end)), Hprop.
    reflexivity.
  - intros name. unfold entity_property.
    cbn [initializeEntities properties set_db]. rewrite Hp.
    rewrite (lookup_map_snd
               (fun p => match p with
                         | EntityProperty entity _ => EntityProperty entity true
                         | OtherProperty v => OtherProperty v
                         end)).
    destruct (lookup (properties this) name) as [[entity [|] | v] |];
      try discriminate; reflexivity.
Qed.

Lemma built_from_new (name_ : string) (version : option number)
      (fields : list (string * Entity)) :
  built_from fields (new_Idb name_ version fields).
Proof.
  unfold built_from, new_Idb. cbn [properties].
  induction fields as [| field fields IH]; cbn [map]; constructor.
  - cbn [fst snd]. split; [reflexivity |]. exists false.
    split; [reflexivity | discriminate].
  - apply IH.
Qed.

Lemma built_from_set_db fields (this : Idb) db :
  built_from fields this -> built_from fields (set_db (Some db) this).
Proof.
  unfold built_from. cbn [set_db properties Idb_db].
  apply Forall2_impl. intros field prop [Hname [bound [Hprop _]]].
  split; [exact Hname |]. exists bound. split; [exact Hprop | discriminate].
Qed.

Lemma built_from_initializeEntities fields (this : Idb) :
  Idb_db this <> None ->
  built_from fields this -> built_from fields (initializeEntities this).
Proof.
  intros Hdb. unfold built_from. cbn [initializeEntities properties Idb_db].
  generalize (properties this) as props. intros props Hbuilt.
  induction Hbuilt as [| field prop fields props [Hname [bound [Hprop _]]] _ IH];
    cbn [map]; constructor; [| exact IH].
  cbn [fst snd]. split; [exact Hname |]. exists true. now rewrite Hprop.
Qed.

Lemma built_from_connect fields (this : Idb) opened :
  built_from fields this -> built_from fields (snd (connect opened this)).
Proof.
  unfold connect. destruct opened as [events | e]; [| auto].
  generalize StillPending as state. revert this.
  induction events as [| event events IH]; intros this state Hbuilt; [exact Hbuilt |].
  cbn [fold_left on_open]. destruct event as [c | c | e]; apply IH.
  - now apply built_from_set_db.
  - apply built_from_initializeEntities; [discriminate |].
    now apply built_from_set_db.
  - exact Hbuilt.
Qed.

Lemma built_from_disconnect fields (this : Idb) :
  built_from fields this -> built_from fields (disconnect this).
Proof.
  unfold disconnect. destruct (Idb_db this); [apply built_from_set_db | auto].
Qed.

Lemma built_from_run fields (this : Idb) (c : IdbCall) :
  built_from fields this -> built_from fields (run_call this c).
Proof.
  intros Hbuilt. destruct c as [opened | | databases deleting]; cbn [run_call].
  - now apply built_from_connect.
  - now apply built_from_disconnect.
  - unfold dropDatabase. destruct databases as [names | e | e]; try exact Hbuilt.
    destruct (existsb _ names); [| exact Hbuilt].
    destruct deleting; now apply built_from_disconnect.
Qed.

Lemma built_from_lookup fields (this : Idb) name entity :
  built_from fields this ->
  lookup fields name = Some entity ->
  exists bound,
    lookup (properties this) name = Some (EntityProperty entity bound)
    /\ (bound = true -> Idb_db this <> None).
Proof.
  unfold built_from. generalize (properties this) as props. intros props Hbuilt.
  induction Hbuilt as [| [k e] [k' p] fields props [Hname [bound [Hprop Hb]]] _ IH];
    [discriminate |].
  cbn [fst snd] in Hname, Hprop. subst k' p. cbn [lookup].
  destruct (String.eqb k name); [| exact IH].
  intros [= <-]. now exists bound.
Qed.

(** X22.  Whatever calls of [connect], [disconnect] and [dropDatabase] a
    manager has gone through, each of its entities is either as it was
    constructed, without a database function, or sends its requests to the
    connection the manager holds: its clauses, bounds and directive are
    never touched, and the error of [getDb] never reaches an entity. *)
Theorem entities_see_the_connection_or_none :
  forall (name_ : string) (version : option number)
         (fields : list (string * Entity)) (calls : list IdbCall),
    let this := fold_left run_call calls (new_Idb name_ version fields) in
    forall name entity,
      lookup fields name = Some entity ->
      entity_property this name = Some entity
      \/ exists connection,
           Idb_db this = Some connection
           /\ entity_property this name
              = Some (setDb (Some (requests connection)) entity).
Proof.
  intros name_ version fields calls this name entity Hfield.
  assert (Hbuilt : built_from fields this).
  { subst this.
    pose proof (built_from_new name_ version fields) as Hnew.
    revert Hnew. generalize (new_Idb name_ version fields) as start.
    clear Hfield. induction calls as [| c calls IH]; intros start Hstart;
      [exact Hstart |].
    cbn [fold_left]. apply IH. now apply built_from_run. }
  destruct (built_from_lookup fields this name entity Hbuilt Hfield)
    as [bound [Hprop Hconnected]].
  unfold entity_property. rewrite Hprop. destruct bound; [right | now left].
  destruct (Idb_db this) as [connection |] eqn:Hdb;
    [| now destruct (Hconnected eq_refl)].
  exists connection. split; [reflexivity |].
  unfold through_getDb, getDb. now rewrite Hdb.
Qed.

Lemma settled_stays (events : list DeleteEvent) (state : settlement) :
  state <> StillPending -> fold_left on_delete events state = state.
Proof.
  revert state. induction events as [| event events IH]; intros state Hs;
    [reflexivity |].
  cbn [fold_left]. assert (Hstep : on_delete state event = state)
    by (destruct event, state; cbn; congruence).
  rewrite Hstep. now apply IH.
Qed.

(** X23.  [dropDatabase] resolves at once, the connection left open, when
    the database is not among those the browser lists; when it is, the
    connection is closed before the deletion is asked for, whatever the
    deletion does, and the first event of the deletion decides the promise:
    a blocked deletion rejects it with the text ["delete db is blocked"]. *)
Theorem dropDatabase_closes_then_deletes :
  forall (this : Idb) (names : list string),
    (existsb (fun name => String.eqb name (dbName this)) names = false ->
     forall deleting,
       dropDatabase (Resolved names) deleting this = (Fulfilled, this))
    /\ (existsb (fun name => String.eqb name (dbName this)) names = true ->
        (forall deleting,
            snd (dropDatabase (Resolved names) deleting this) = disconnect this)
        /\ (forall first rest,
              fst (dropDatabase (Resolved names) (Returns (first :: rest)) this)
              = on_delete StillPending first)
        /\ (forall rest,
              fst (dropDatabase (Resolved names)
                     (Returns (delete_blocked :: rest)) this)
              = RejectedWithText "delete db is blocked")).
Proof.
  intros this names. split; intros Hlisted; unfold dropDatabase; rewrite Hlisted.
  - reflexivity.
  - assert (Hfirst : forall first rest,
               fold_left on_delete (first :: rest) StillPending
               = on_delete StillPending first).
    { intros first rest. cbn [fold_left]. apply settled_stays.
      now destruct first. }
    repeat split.
    + intros deleting. now destruct deleting.
    + intros first rest. cbn [fst]. apply Hfirst.
    + intros rest. cbn [fst]. now rewrite Hfirst.
Qed.

Section ManagerAndEntities.
Context `{Coercions}.

(** X24.  After [disconnect], an entity of the manager rejects [get] and
    [find] with the [InvalidStateError] of the closed connection, and keeps
    every clause, bound and directive it had; a manager that never opened a
    connection is left as it is, and a second [disconnect] changes
    nothing. *)
Theorem disconnected_entity_rejects_and_keeps_its_state :
  forall (this : Idb),
    (forall connection name entity,
        Idb_db this = Some connection ->
        lookup (properties this) name = Some (EntityProperty entity true) ->
        exists entity',
          entity_property (disconnect this) name = Some entity'
          /\ get entity' = (Rejected (DOMException "InvalidStateError"), entity')
          /\ (forall id,
                find id entity'
                = (Rejected (DOMException "InvalidStateError"), entity'))
          /\ queries entity' = queries entity /\ take entity' = take entity
          /\ offset entity' = offset entity /\ withs entity' = withs entity)
    /\ (Idb_db this = None -> disconnect this = this)
    /\ disconnect (disconnect this) = disconnect this.
Proof.
  intros this. split; [| split].
  - intros connection name entity Hdb Hprop.
    exists (setDb (Some closed_db) entity). unfold disconnect. rewrite Hdb.
    unfold entity_property. cbn [set_db properties]. rewrite Hprop.
    repeat split.
  - unfold disconnect. now intros ->.
  - unfold disconnect. destruct (Idb_db this) as [connection |] eqn:Hdb;
      cbn [set_db Idb_db]; [reflexivity | now rewrite Hdb].
Qed.

End ManagerAndEntities.

(** * Further properties on the stores of the test suite *)

Lemma literal_clause_is_strict_equality_witness :
  (forall props, VNum (Num 30) <> VObj props)
  /\ matches Alice [("age", VNum (Num 30))] = Returns true
  /\ matches Bob [("age", VNum (Num 30))] = Returns false.
Proof.
  assert (Hlit : forall props, VNum (Num 30) <> VObj props)
    by (intros props; discriminate).
  split; [exact Hlit | split].
  - exact (proj1 (literal_clause_is_strict_equality Alice "age" _ Hlit)).
  - exact (proj1 (literal_clause_is_strict_equality Bob "age" _ Hlit)).
Defined.

Lemma unknown_operator_never_matches_witness :
  let query := [("name", VStr "Alice"); ("age", VObj [("$between", VNum (Num 1))])] in
  In ("age", VObj [("$between", VNum (Num 1))]) query
  /\ In ("$between", VNum (Num 1)) [("$between", VNum (Num 1))]
  /\ ~ In "$between" operators
  /\ matches Alice query <> Returns true.
Proof.
  intros query.
  assert (Hclause : In ("age", VObj [("$between", VNum (Num 1))]) query)
    by (right; left; reflexivity).
  assert (Hop : In ("$between", VNum (Num 1)) [("$between", VNum (Num 1))])
    by (left; reflexivity).
  assert (Hunknown : ~ In "$between" operators).
  { intros Hin. cbn in Hin.
    repeat (destruct Hin as [Hin | Hin]; [discriminate Hin |]). exact Hin. }
  split; [exact Hclause | split; [exact Hop | split; [exact Hunknown |]]].
  exact (unknown_operator_never_matches Alice query "age" "$between" _ _
           Hclause Hop Hunknown).
Defined.

Lemma ordering_operators_on_integers_witness :
  (forall x y : Z, IsLessThan (VNum (Num x)) (VNum (Num y)) = Some (x <? y)%Z)
  /\ get_prop Alice "age" = VNum (Num 30)
  /\ matches Alice (clause "age" "$gt" (VNum (Num 30))) = Returns false
  /\ matches Alice (clause "age" "$gte" (VNum (Num 30))) = Returns true
  /\ matches Alice (clause "age" "$lt" (VNum (Num 30))) = Returns false
  /\ matches Alice (clause "age" "$lte" (VNum (Num 30))) = Returns true.
Proof.
  assert (Hint : forall x y : Z,
             IsLessThan (VNum (Num x)) (VNum (Num y)) = Some (x <? y)%Z)
    by (intros x y; reflexivity).
  split; [exact Hint | split; [reflexivity |]].
  destruct (ordering_operators_on_integers Alice "age" 30 Hint eq_refl 30)
    as [Hgt [Hgte [Hlt [Hlte _]]]].
  split; [exact Hgt | split; [exact Hgte | split; [exact Hlt | exact Hlte]]].
Defined.

Lemma ordering_operators_pass_the_incomparable_witness :
  IsLessThan (get_prop Alice "zip") (VNum (Num 5)) = None
  /\ IsLessThan (VNum (Num 5)) (get_prop Alice "zip") = None
  /\ In "$gt" ["$gt"; "$gte"; "$lt"; "$lte"]
  /\ matches Alice (clause "zip" "$gt" (VNum (Num 5))) = Returns true.
Proof.
  assert (Hop : In "$gt" ["$gt"; "$gte"; "$lt"; "$lte"]) by (left; reflexivity).
  split; [reflexivity | split; [reflexivity | split; [exact Hop |]]].
  exact (ordering_operators_pass_the_incomparable Alice "zip" (VNum (Num 5))
           eq_refl eq_refl "$gt" Hop).
Defined.

Lemma string_operators_on_strings_witness :
  get_prop Alice "name" = VStr "Alice"
  /\ matches Alice (clause "name" "$contains" (VStr "lic")) = Returns true
  /\ (exists front back, "Alice" = (front ++ "lic" ++ back)%string).
Proof.
  destruct (string_operators_on_strings Alice "name" "Alice" "lic" eq_refl)
    as [_ [_ [Hcontains _]]].
  split; [reflexivity | split; [reflexivity |]].
  exact (proj1 Hcontains eq_refl).
Defined.

Lemma clauses_and_operators_conjoin_witness :
  matches Alice [("name", VStr "Alice")] = Returns true
  /\ matches Alice (clause "age" "$gte" (VNum (Num 30))) = Returns true
  /\ matches Alice ([("name", VStr "Alice")] ++ clause "age" "$gte" (VNum (Num 30)))
     = Returns true.
Proof.
  split; [reflexivity | split; [reflexivity |]].
  exact (proj2 (proj1 (clauses_and_operators_conjoin Alice)
                  [("name", VStr "Alice")] (clause "age" "$gte" (VNum (Num 30))))
           (conj eq_refl eq_refl)).
Defined.

Lemma malformed_in_operand_leaves_get_pending_witness :
  let this := where_ (clause "age" "$in" (VNum (Num 25))) db_users in
  ("$in" = "$in" \/ "$in" = "$nin")
  /\ isArray (VNum (Num 25)) = false
  /\ is_string (VNum (Num 25)) = false
  /\ db this = Some test_db
  /\ store_getAll test_db (storeName this) = Succeeds (Alice :: [Bob; Charlie; David])
  /\ queries this = [clause "age" "$in" (VNum (Num 25))]
  /\ exists msg, get this = (Unsettled (TypeError msg), this).
Proof.
  intros this.
  assert (Hop : "$in" = "$in" \/ "$in" = "$nin") by (left; reflexivity).
  split; [exact Hop |].
  do 5 (split; [reflexivity |]).
  exact (malformed_in_operand_leaves_get_pending this test_db Alice
           [Bob; Charlie; David] "age" "$in" (VNum (Num 25))
           Hop eq_refl eq_refl eq_refl eq_refl eq_refl).
Defined.

Lemma get_returns_at_most_the_limit_witness :
  let this := limit (Num 2) db_users in
  get this = (Resolved [Alice; Bob], clear this)
  /\ (0 < 2)%nat
  /\ take this = Some (Num (Z.of_nat 2))
  /\ (List.length [Alice; Bob] <= List.length users_store)%nat
  /\ (List.length [Alice; Bob] <= 2)%nat.
Proof.
  intros this.
  assert (Hget : get this = (Resolved [Alice; Bob], clear this)) by reflexivity.
  assert (Hpos : (0 < 2)%nat) by (apply Nat.lt_0_succ).
  destruct (get_returns_at_most_the_limit this (clear this) [Alice; Bob] Hget)
    as [Hstore Hlimit].
  split; [exact Hget | split; [exact Hpos | split; [reflexivity | split]]].
  - exact (Hstore test_db users_store eq_refl eq_refl).
  - exact (Hlimit 2%nat Hpos eq_refl).
Defined.

Lemma get_returns_the_matching_records_witness :
  let this := where_ younger_than_35 db_users in
  db this = Some test_db
  /\ store_getAll test_db (storeName this) = Succeeds users_store
  /\ withs this = []
  /\ get this = (Resolved [Alice; Bob; David], clear this)
  /\ In Bob [Alice; Bob; David]
  /\ matches Bob younger_than_35 = Returns true
  /\ In Bob users_store.
Proof.
  intros this.
  assert (Hget : get this = (Resolved [Alice; Bob; David], clear this))
    by reflexivity.
  assert (Hin : In Bob [Alice; Bob; David]) by (right; left; reflexivity).
  destruct (get_returns_the_matching_records this (clear this) test_db
              users_store [Alice; Bob; David] eq_refl eq_refl eq_refl Hget)
    as [Hsound _].
  destruct (Hsound Bob Hin) as [Hstore Hclauses].
  do 3 (split; [reflexivity |]).
  split; [exact Hget | split; [exact Hin | split; [| exact Hstore]]].
  exact (Hclauses younger_than_35 (or_introl eq_refl)).
Defined.

Lemma two_clauses_evaluable :
  evaluable (queries db_users
             ++ [clause "age" "$gte" (VNum (Num 30));
                 clause "name" "$startsWith" (VStr "A")])
            users_store.
Proof.
  intros query item Hquery Hitem. cbn in Hquery.
  destruct Hquery as [<- | [<- | []]];
    repeat (destruct Hitem as [<- | Hitem]; [eexists; reflexivity |]);
    destruct Hitem.
Defined.

Lemma where_calls_commute_and_merge_witness :
  let older := clause "age" "$gte" (VNum (Num 30)) in
  let named := clause "name" "$startsWith" (VStr "A") in
  db db_users = Some test_db
  /\ store_getAll test_db (storeName db_users) = Succeeds users_store
  /\ evaluable (queries db_users ++ [older; named]) users_store
  /\ fst (get (where_ named (where_ older db_users)))
     = fst (get (where_ older (where_ named db_users)))
  /\ fst (get (where_ named (where_ older db_users)))
     = fst (get (where_ (older ++ named) db_users)).
Proof.
  intros older named.
  split; [reflexivity | split; [reflexivity | split]].
  - exact two_clauses_evaluable.
  - exact (where_calls_commute_and_merge db_users test_db users_store older named
             eq_refl eq_refl two_clauses_evaluable).
Defined.

Lemma consecutive_pages_are_contiguous_witness :
  db db_users = Some test_db
  /\ store_getAll test_db (storeName db_users) = Succeeds users_store
  /\ apply_queries (queries db_users) users_store = Returns users_store
  /\ withs db_users = []
  /\ (0 < 1)%nat
  /\ exists first second both,
       fst (get (limit (Num 1) (skip (Num 1) db_users))) = Resolved first
       /\ fst (get (limit (Num 1) (skip (Num 2) db_users))) = Resolved second
       /\ fst (get (limit (Num 2) (skip (Num 1) db_users))) = Resolved both
       /\ first ++ second = both.
Proof.
  assert (Hpos : (0 < 1)%nat) by (apply Nat.lt_0_succ).
  do 4 (split; [reflexivity |]).
  split; [exact Hpos |].
  exact (consecutive_pages_are_contiguous db_users test_db users_store users_store
           1%nat 1%nat eq_refl eq_refl eq_refl eq_refl Hpos).
Defined.

Lemma skip_applies_before_limit_in_either_order_witness :
  db db_users = Some test_db
  /\ store_getAll test_db (storeName db_users) = Succeeds users_store
  /\ apply_queries (queries db_users) users_store = Returns users_store
  /\ (0 < 2)%nat
  /\ skip (Num 1) (limit (Num 2) db_users) = limit (Num 2) (skip (Num 1) db_users)
  /\ get (skip (Num 1) (limit (Num 2) db_users))
     = deliver (skip (Num 1) (limit (Num 2) db_users)) [Bob; Charlie].
Proof.
  assert (Hpos : (0 < 2)%nat) by (apply Nat.lt_0_succ).
  do 3 (split; [reflexivity |]).
  split; [exact Hpos |].
  exact (skip_applies_before_limit_in_either_order db_users test_db users_store
           users_store 1%nat 2%nat eq_refl eq_refl eq_refl Hpos).
Defined.

Lemma settled_get_leaves_a_clean_builder_witness :
  let this := limit (Num 1) (where_ younger_than_35 db_users) in
  get this = (Resolved [Alice], clear this)
  /\ db this = Some test_db
  /\ store_getAll test_db (storeName this) = Succeeds users_store
  /\ get (clear this) = (Resolved users_store, clear this).
Proof.
  intros this.
  destruct (settled_get_leaves_a_clean_builder this) as [_ [_ Hnext]].
  split; [reflexivity | split; [reflexivity | split; [reflexivity |]]].
  exact (Hnext test_db users_store eq_refl eq_refl).
Defined.

Lemma after_a_successful_request_nothing_rejects_witness :
  let this := with_ [("comments", [])] db_users in
  db this = Some test_db
  /\ store_getAll test_db (storeName this) = Succeeds users_store
  /\ (forall e, fst (get this) <> Rejected e)
  /\ get this
     = (Unsettled (Error "Relation 'comments' not defined on model."), this).
Proof.
  intros this.
  destruct (after_a_successful_request_nothing_rejects this) as [Hget _].
  split; [reflexivity | split; [reflexivity | split; [| reflexivity]]].
  intros e. exact (Hget test_db users_store e eq_refl eq_refl).
Defined.

Lemma relation_loading_touches_only_named_fields_witness :
  let this := with_ [("posts", [])] db_users in
  (exists loaded, loadRelations this Alice = Resolved loaded
                  /\ get_prop loaded "name" = get_prop Alice "name"
                  /\ exists items, get_prop loaded "posts" = VArr items).
Proof.
  intros this.
  assert (Hload : loadRelations this Alice
                  = Resolved (Alice ++ [("posts",
                                         VArr [VObj (post 1 "Post 1 by Alice" 1);
                                               VObj (post 2 "Post 2 by Alice" 1)])]))
    by reflexivity.
  assert (Hne : User <> []) by discriminate.
  assert (Hnamed : lookup (withs this) "posts" <> None) by discriminate.
  destruct (relation_loading_touches_only_named_fields this Alice _ Hload)
    as [Hkeep Hset].
  eexists. split; [exact Hload | split].
  - exact (Hkeep "name" eq_refl).
  - exact (Hset User "posts" eq_refl Hne Hnamed).
Defined.

Lemma loaded_relation_holds_the_related_records_witness :
  modelClass db_users = Some User
  /\ lookup User "posts" = Some posts_of_User
  /\ declKind posts_of_User <> ManyToMany
  /\ db db_users = Some test_db
  /\ store_getAll test_db (declStoreName posts_of_User) = Succeeds posts_store
  /\ (forall props, get_prop Alice (declLocalKey posts_of_User) <> VObj props)
  /\ loadRelations (with_ [("posts", [])] db_users) Alice
     = Resolved (set_prop Alice "posts"
                   (VArr [VObj (post 1 "Post 1 by Alice" 1);
                          VObj (post 2 "Post 2 by Alice" 1)]))
  /\ (0 < 1)%nat
  /\ loadRelations (with_ [("posts", [CallLimit (Num 1)])] db_users) Alice
     = Resolved (set_prop Alice "posts" (VArr [VObj (post 1 "Post 1 by Alice" 1)])).
Proof.
  assert (Hkind : declKind posts_of_User <> ManyToMany) by discriminate.
  assert (Hkey : forall props,
             get_prop Alice (declLocalKey posts_of_User) <> VObj props)
    by (intros props; discriminate).
  assert (Hpos : (0 < 1)%nat) by (apply Nat.lt_0_succ).
  destruct (loaded_relation_holds_the_related_records db_users User "posts"
              posts_of_User test_db posts_store Alice
              eq_refl eq_refl Hkind eq_refl eq_refl Hkey) as [Hall Hfirst].
  split; [reflexivity | split; [reflexivity | split; [exact Hkind |]]].
  split; [reflexivity | split; [reflexivity | split; [exact Hkey |]]].
  split; [exact Hall | split; [exact Hpos | exact (Hfirst 1%nat Hpos)]].
Defined.

Lemma directive_on_a_relation_is_ignored_witness :
  let query := setDb (Some test_db) (new_Entity "posts" None) in
  modelClass query = None
  /\ fst (get (with_ [("author", [])] query)) = fst (get query)
  /\ fst (get (refine ([CallLimit (Num 2)] ++ [CallWith [("author", [])]]) query))
     = fst (get (refine [CallLimit (Num 2)] query)).
Proof.
  intros query.
  destruct (directive_on_a_relation_is_ignored query [("author", [])] eq_refl)
    as [Hwith Hrefine].
  split; [reflexivity | split; [exact Hwith | exact (Hrefine [CallLimit (Num 2)])]].
Defined.

Lemma many_to_many_reads_the_key_array_witness :
  let reader := [("id", VNum (Num 7));
                 ("postIds", VArr [VNum (Num 1); VNum (Num 3)])] in
  let related model :=
    getRelated
      (bound_relation (Some test_db)
         {| declKind := ManyToMany; declStoreName := "posts";
            declForeignKey := "id"; declLocalKey := "postIds" |}) model in
  store_getAll test_db "posts" = Succeeds posts_store
  /\ get_prop reader "postIds" = VArr [VNum (Num 1); VNum (Num 3)]
  /\ fst (get (related reader))
     = Resolved [post 1 "Post 1 by Alice" 1; post 3 "Post 1 by Bob" 2]
  /\ isArray (get_prop Alice "postIds") = false
  /\ is_string (get_prop Alice "postIds") = false
  /\ posts_store <> []
  /\ exists msg, get (related Alice) = (Unsettled (TypeError msg), related Alice).
Proof.
  intros reader related.
  assert (Hrecords : posts_store <> []) by discriminate.
  destruct (many_to_many_reads_the_key_array "posts" "id" "postIds" test_db
              posts_store reader eq_refl) as [Hids _].
  destruct (many_to_many_reads_the_key_array "posts" "id" "postIds" test_db
              posts_store Alice eq_refl) as [_ Hmissing].
  split; [reflexivity | split; [reflexivity |]].
  split; [exact (Hids _ eq_refl) |].
  split; [reflexivity | split; [reflexivity | split; [exact Hrecords |]]].
  exact (Hmissing eq_refl eq_refl Hrecords).
Defined.

Lemma loading_a_relation_twice_changes_nothing_witness :
  let this := with_ [("posts", [])] db_users in
  let loaded := set_prop Alice "posts"
                  (VArr [VObj (post 1 "Post 1 by Alice" 1);
                         VObj (post 2 "Post 2 by Alice" 1)]) in
  modelClass this = Some User
  /\ lookup User "posts" = Some posts_of_User
  /\ withs this = [("posts", [])]
  /\ "posts" <> declLocalKey posts_of_User
  /\ loadRelations this Alice = Resolved loaded
  /\ loadRelations this loaded = Resolved loaded.
Proof.
  intros this loaded.
  assert (Hname : "posts" <> declLocalKey posts_of_User) by discriminate.
  assert (Hload : loadRelations this Alice = Resolved loaded) by reflexivity.
  do 3 (split; [reflexivity |]).
  split; [exact Hname | split; [exact Hload |]].
  exact (loading_a_relation_twice_changes_nothing this User "posts" posts_of_User
           [] Alice loaded eq_refl eq_refl eq_refl Hname Hload).
Defined.

Lemma createObjectStores_completes_the_stores_witness :
  let upgraded := createObjectStores TestDb opened_connection in
  In ("posts", EntityProperty (new_Entity "posts" (Some Post)) false)
     (properties TestDb)
  /\ contains upgraded "posts" = true
  /\ NoDup (map osName (objectStores opened_connection))
  /\ NoDup (map osName (objectStores upgraded))
  /\ createObjectStores TestDb upgraded = upgraded.
Proof.
  intros upgraded.
  assert (Hprop : In ("posts", EntityProperty (new_Entity "posts" (Some Post)) false)
                     (properties TestDb)) by (right; left; reflexivity).
  assert (Hnodup : NoDup (map osName (objectStores opened_connection)))
    by constructor.
  destruct (createObjectStores_completes_the_stores TestDb opened_connection)
    as [_ [Hall [Hkeep Hfixed]]].
  split; [exact Hprop | split; [| split; [exact Hnodup | split]]].
  - exact (Hall "posts" _ false Hprop).
  - exact (Hkeep Hnodup).
  - exact Hfixed.
Defined.

Lemma connect_binds_every_entity_witness :
  let events := map upgradeneeded [opened_connection] ++ [success opened_connection] in
  let connected := snd (connect (Returns events) TestDb) in
  lookup (properties TestDb) "users"
  = Some (EntityProperty (new_Entity "users" (Some User)) false)
  /\ fst (connect (Returns events) TestDb) = Fulfilled
  /\ getDb connected = Returns opened_connection
  /\ entity_property connected "users" = Some db_users.
Proof.
  intros events connected.
  destruct (connect_binds_every_entity TestDb [opened_connection] opened_connection)
    as [Hresolved [Hdb [Hbound _]]].
  split; [reflexivity | split; [exact Hresolved | split; [exact Hdb |]]].
  exact (Hbound "users" _ false eq_refl).
Defined.

Lemma entities_see_the_connection_or_none_witness :
  let fields := [("users", new_Entity "users" (Some User));
                 ("posts", new_Entity "posts" (Some Post))] in
  let calls := [call_connect (Returns [success opened_connection]);
                call_disconnect] in
  let this := fold_left run_call calls (new_Idb "test-db" None fields) in
  lookup fields "users" = Some (new_Entity "users" (Some User))
  /\ (entity_property this "users" = Some (new_Entity "users" (Some User))
      \/ exists connection,
           Idb_db this = Some connection
           /\ entity_property this "users"
              = Some (setDb (Some (requests connection))
                        (new_Entity "users" (Some User)))).
Proof.
  intros fields calls this. split; [reflexivity |].
  exact (entities_see_the_connection_or_none "test-db" None fields calls
           "users" _ eq_refl).
Defined.

Lemma dropDatabase_closes_then_deletes_witness :
  existsb (fun name => String.eqb name (dbName TestDb)) ["other"; "test-db"] = true
  /\ existsb (fun name => String.eqb name (dbName TestDb)) ["other"] = false
  /\ dropDatabase (Resolved ["other"]) (Returns [delete_success]) TestDb
     = (Fulfilled, TestDb)
  /\ snd (dropDatabase (Resolved ["other"; "test-db"]) (Returns [delete_success])
            TestDb) = disconnect TestDb
  /\ fst (dropDatabase (Resolved ["other"; "test-db"])
            (Returns [delete_blocked; delete_success]) TestDb)
     = RejectedWithText "delete db is blocked".
Proof.
  destruct (dropDatabase_closes_then_deletes TestDb ["other"]) as [Habsent _].
  destruct (dropDatabase_closes_then_deletes TestDb ["other"; "test-db"])
    as [_ Hlisted].
  destruct (Hlisted eq_refl) as [Hclosed [_ Hblocked]].
  split; [reflexivity | split; [reflexivity | split]].
  - exact (Habsent eq_refl (Returns [delete_success])).
  - split; [exact (Hclosed (Returns [delete_success])) |].
    exact (Hblocked [delete_success]).
Defined.

Lemma disconnected_entity_rejects_and_keeps_its_state_witness :
  let connected :=
    snd (connect (Returns [success opened_connection]) TestDb) in
  Idb_db connected = Some opened_connection
  /\ lookup (properties connected) "users"
     = Some (EntityProperty (new_Entity "users" (Some User)) true)
  /\ exists entity',
       entity_property (disconnect connected) "users" = Some entity'
       /\ get entity' = (Rejected (DOMException "InvalidStateError"), entity')
       /\ queries entity' = queries (new_Entity "users" (Some User)).
Proof.
  intros connected.
  destruct (disconnected_entity_rejects_and_keeps_its_state connected)
    as [Hclosed _].
  destruct (Hclosed opened_connection "users" _ eq_refl eq_refl)
    as [entity' [Hprop [Hget [_ [Hq _]]]]].
  split; [reflexivity | split; [reflexivity |]].
  exists entity'. split; [exact Hprop | split; [exact Hget | exact Hq]].
Defined.
